(** * Training loop of PpkNet (train_rnn.py): a shallow embedding

    The script drives epochs x batches over a shuffled training loader,
    performs one optimizer update per batch, periodically saves the model
    parameters and periodically validates on one randomly drawn batch and
    logs three groups of scalars.

    Conventions of the embedding:
    - Python integers are [Z] (configuration values) or [nat] (loop
      counters, which the source obtains from [range] and [enumerate]);
    - host-side floating point scalars are [pyfloat]: an exact rational or
      [NaN]; rounding is abstracted away, undefined quotients are not;
    - the tensor framework, the model, the data set reader and the
      configuration module are external collaborators, gathered in the
      record [Framework];
    - effects (model and optimizer mutation, unassigned local variables,
      files written, lines printed, scalars logged, exceptions) are threaded
      through the state-and-error monad [M]. *)

From Stdlib Require Import String Ascii Decimal DecimalString DecimalNat.
From Stdlib Require Import List ZArith QArith Lia Lqa Bool Arith PeanoNat.
From Stdlib Require Import Permutation Sorted.
Import ListNotations.

Local Open Scope nat_scope.

(* ------------------------------------------------------------------ *)
(** ** Host-side floats *)

Module PyFloat.

Inductive pyfloat : Type :=
| Fin (q : Q)
| NaN.

Definition lift2 (op : Q -> Q -> Q) (a b : pyfloat) : pyfloat :=
  match a, b with
  | Fin x, Fin y => Fin (op x y)
  | _, _ => NaN
  end.

Definition sub := lift2 Qminus.
Definition mul := lift2 Qmult.

(** [a / b] for a non-zero constant divisor [b] (the source only divides
    host floats by the literal 2). *)
Definition div_const (a : pyfloat) (b : Q) : pyfloat :=
  match a with
  | Fin x => Fin (x / b)
  | NaN => NaN
  end.

(** [x.sum() / float(n)] for an integer count [x] with [0 <= x <= n]: the
    quotient 0 / 0.0 of the framework is nan, no exception is raised. *)
Definition count_div (count total : nat) : pyfloat :=
  match total with
  | O => NaN
  | S _ => Fin (inject_Z (Z.of_nat count) / inject_Z (Z.of_nat total))
  end.

Definition in_unit_interval (a : pyfloat) : Prop :=
  match a with
  | Fin q => (0 <= q /\ q <= 1)%Q
  | NaN => False
  end.

End PyFloat.
Export PyFloat.

(* ------------------------------------------------------------------ *)
(** ** Tensor operations used by the two step functions *)

Module Tensor.

(** One row of the logits after [view(-1,3)]. *)
Definition Logits : Type := (Q * Q * Q)%type.

Definition Qltb (x y : Q) : bool := negb (Qle_bool y x).

(** [torch.argmax(_, 1)] on a row of three: the index of the first
    maximal entry. *)
Definition argmax3 (r : Logits) : Z :=
  let '(a, b, c) := r in
  if Qltb a b
  then (if Qltb b c then 2 else 1)%Z
  else (if Qltb a c then 2 else 0)%Z.

Definition argmax (rows : list Logits) : list Z := map argmax3 rows.

(** [t.view(-1, 3)] on a [batch, time, 3] tensor and [t.view(-1)] on a
    [batch, time] tensor: both concatenate the rows. *)
Definition view {A : Type} (t : list (list A)) : list A := concat t.

(** [a.eq(b)] on two vectors of the same length. *)
Definition eq (a b : list Z) : list bool :=
  map (fun p => Z.eqb (fst p) (snd p)) (combine a b).

(** [mask.sum()]. *)
Definition sum (mask : list bool) : nat :=
  length (filter (fun b => b) mask).

(** The labels [nn.CrossEntropyLoss()] accepts for rows of three logits:
    a class 0, 1 or 2, or its default [ignore_index] -100. *)
Definition label_ok (l : Z) : bool :=
  ((0 <=? l) && (l <? 3) || (l =? -100))%Z.

End Tensor.

(* ------------------------------------------------------------------ *)
(** ** External collaborators *)

(** [config.Config()]: the fields read by [main]. *)
Record Config : Type := {
  rnn_lr : Q;
  rnn_num_epochs : Z;
  rnn_summary_step : Z;
  rnn_ckpt_step : Z;
  to_init_rnn : bool;
  num_steps : Q;
  step_stride : Q;
  rnn_batch_size : Z;
  rnn_num_workers : Z
}.

(** The tensor framework, the model, the data set reader, the configuration
    module and the ambient sources of non-determinism.  Nothing is assumed
    about them beyond their types. *)
Record Framework : Type := {
  Params : Type;               (* what model.state_dict() holds *)
  Grad : Type;                 (* the .grad buffers of the parameters *)
  Moments : Type;              (* Adam's moving averages *)
  Input : Type;                (* one input sequence of the data set *)
  (* models.PpkNet *)
  PpkNet : Params;
  forward : bool -> Params -> list Input -> list (list Tensor.Logits);
  (* nn.CrossEntropyLoss and reverse-mode differentiation of it *)
  CrossEntropyLoss : list Tensor.Logits -> list Z -> pyfloat;
  gradient : bool -> Params -> list Input -> list Z -> Grad;
  accumulate : Grad -> Grad -> Grad;
  (* optim.Adam *)
  Adam_init : Moments;
  Adam_update : Q -> nat -> Moments -> Params -> Grad -> Moments * Params;
  (* model.apply(init_weights) *)
  apply_init_weights : Params -> Params;
  (* dataset.Sequences(zarr_path, split) *)
  Sequences : option string -> string -> list (Input * list Z);
  (* config.Config() *)
  config_Config : Config;
  (* random draws (stream, position), wall clock, file system *)
  rand : nat -> nat -> nat;
  time_time : nat -> Q;
  os_path_exists : string -> bool
}.

(** The namespace produced by [argparse]. *)
Record Args : Type := {
  gpu_idx : string;
  zarr_path : option string;
  ckpt_dir : string;
  resume : option string       (* [None] is the default [False] *)
}.

(* ------------------------------------------------------------------ *)
(** ** Program state, events and the monad *)

Section Machine.

Variable F : Framework.

Definition Example : Type := (Input F * list Z)%type.

Record Model : Type := {
  training : bool;
  state_dict : Params F;
  grad : option (Grad F)
}.

Record Optimizer : Type := {
  lr : Q;
  step_count : nat;
  moments : Moments F
}.

Inductive line : Type :=
| StepLine (global_step iter_idx epoch_idx : nat)
           (train_loss valid_loss : pyfloat) (elapsed : Q)
| AccLine (train_acc100 train_dt valid_acc100 valid_dt : pyfloat).

(** What a run does to the outside world, in order.  [Trained] is a
    bookkeeping event: it marks the return of [train_step] in the loop
    iteration [(epoch_idx, iter_idx)] and records the parameters that the
    update left in the model. *)
Inductive event : Type :=
| Makedirs (path : string)
| Trained (epoch_idx iter_idx global_step : nat) (after : Params F)
| Save (obj : Params F) (path : string)
| ValidBatch (data : list (Input F)) (target : list (list Z))
| Stdout (l : line)
| AddScalars (log_dir main_tag : string)
             (tag_scalar_dict : list (string * pyfloat)) (global_step : nat).

Inductive exn : Type :=
| ValueError            (* samplers: empty data set or batch_size <= 0 *)
| ShapeMismatch         (* criterion: logits and labels do not align *)
| IndexError            (* criterion: a label that is not a class *)
| ZeroDivisionError     (* integer modulo by zero *)
| UnboundLocalError (name : string).

(** The three local variables of [main] that are assigned only inside the
    validation loop are unbound ([None]) until then; all other locals are
    assigned before every use and are ordinary [let]s below. *)
Record State : Type := {
  model : Model;
  optimizer : Optimizer;
  valid_acc : option pyfloat;
  valid_loss : option pyfloat;
  valid_dt : option pyfloat;
  trace : list event
}.

Definition M (A : Type) : Type := State -> State * (exn + A).

Definition ret {A} (a : A) : M A := fun s => (s, inr a).

Definition bind {A B} (c : M A) (k : A -> M B) : M B :=
  fun s => match c s with
           | (s', inr a) => k a s'
           | (s', inl e) => (s', inl e)
           end.

Definition raise {A} (e : exn) : M A := fun s => (s, inl e).

Definition gets {A} (f : State -> A) : M A := fun s => (s, inr (f s)).

Definition modify (f : State -> State) : M unit := fun s => (f s, inr tt).

Definition set_model (m : Model) (s : State) : State :=
  {| model := m; optimizer := optimizer s; valid_acc := valid_acc s;
     valid_loss := valid_loss s; valid_dt := valid_dt s; trace := trace s |}.

Definition set_optimizer (o : Optimizer) (s : State) : State :=
  {| model := model s; optimizer := o; valid_acc := valid_acc s;
     valid_loss := valid_loss s; valid_dt := valid_dt s; trace := trace s |}.

Definition set_valid (acc loss dt : pyfloat) (s : State) : State :=
  {| model := model s; optimizer := optimizer s; valid_acc := Some acc;
     valid_loss := Some loss; valid_dt := Some dt; trace := trace s |}.

Definition log (e : event) (s : State) : State :=
  {| model := model s; optimizer := optimizer s; valid_acc := valid_acc s;
     valid_loss := valid_loss s; valid_dt := valid_dt s;
     trace := trace s ++ [e] |}.

Definition emit (e : event) : M unit := modify (log e).

End Machine.

Arguments ret {F A} a s.
Arguments bind {F A B} c k s.
Arguments raise {F A} e s.
Arguments gets {F A} f s.
Arguments modify {F} f s.
Arguments emit {F} e s.
Arguments training {F} m.
Arguments state_dict {F} m.
Arguments grad {F} m.
Arguments lr {F} o.
Arguments step_count {F} o.
Arguments moments {F} o.
Arguments model {F} s.
Arguments optimizer {F} s.
Arguments valid_acc {F} s.
Arguments valid_loss {F} s.
Arguments valid_dt {F} s.
Arguments trace {F} s.
Arguments set_model {F} m s.
Arguments set_optimizer {F} o s.
Arguments set_valid {F} acc loss dt s.
Arguments log {F} e s.
Arguments Makedirs {F} path.
Arguments Trained {F} epoch_idx iter_idx global_step after.
Arguments Save {F} obj path.
Arguments ValidBatch {F} data target.
Arguments Stdout {F} l.
Arguments AddScalars {F} log_dir main_tag tag_scalar_dict global_step.

Declare Scope py_scope.
Delimit Scope py_scope with py.
Notation "x <- c1 ;; c2" := (bind c1 (fun x => c2))
  (at level 61, c1 at next level, right associativity) : py_scope.
Notation "' pat <- c1 ;; c2" := (bind c1 (fun x => match x with pat => c2 end))
  (at level 61, pat pattern, c1 at next level, right associativity) : py_scope.
Notation "c1 ;; c2" := (bind c1 (fun _ => c2))
  (at level 61, right associativity) : py_scope.

Local Open Scope py_scope.

(* ------------------------------------------------------------------ *)
(** ** Loops with [break] and [continue] *)

Inductive ctl : Type := Next | Break.

(** [for x in xs: body]; the body says whether the loop goes on to the next
    element ([continue], or the end of the body) or stops ([break]). *)
Fixpoint for_ {F A} (xs : list A) (body : A -> M F ctl) : M F unit :=
  match xs with
  | [] => ret tt
  | x :: rest =>
      c <- body x ;;
      match c with
      | Next => for_ rest body
      | Break => ret tt
      end
  end.

Definition range (n : Z) : list nat := seq 0 (Z.to_nat n).

Definition enumerate {A} (xs : list A) : list (nat * A) :=
  combine (seq 0 (length xs)) xs.

(** [a % b] on Python integers. *)
Definition py_mod {F} (a b : Z) : M F Z :=
  if (b =? 0)%Z then raise ZeroDivisionError else ret (a mod b)%Z.

(* ------------------------------------------------------------------ *)
(** ** Samplers and loaders (torch.utils.data) *)

Module Data.

(** A permutation of [0 .. n-1] driven by the draws: element [m] is
    inserted at a drawn position among the [m] elements placed so far. *)
Fixpoint insert_at {A} (k : nat) (x : A) (l : list A) : list A :=
  match k, l with
  | S k', y :: l' => y :: insert_at k' x l'
  | _, _ => x :: l
  end.

Fixpoint randperm (draw : nat -> nat) (n : nat) : list nat :=
  match n with
  | O => []
  | S m => insert_at (draw m mod S m) m (randperm draw m)
  end.

(** [iter(RandomSampler(data_source, replacement))]: [n] indices, drawn
    independently when [replacement] holds, a permutation otherwise. *)
Definition RandomSampler (replacement : bool) (draw : nat -> nat)
    (n : nat) : list nat :=
  if replacement then map (fun j => draw j mod n) (seq 0 n)
  else randperm draw n.

(** [iter(BatchSampler(sampler, batch_size, drop_last=False))]:
    [batch] is the batch under construction. *)
Fixpoint BatchSampler (batch_size : nat) (sampler : list nat)
    (batch : list nat) : list (list nat) :=
  match sampler with
  | [] => if 0 <? length batch then [batch] else []
  | idx :: rest =>
      let batch := batch ++ [idx] in
      if length batch =? batch_size
      then batch :: BatchSampler batch_size rest []
      else BatchSampler batch_size rest batch
  end.

(** [len(loader)] with [drop_last=False]. *)
Definition len (n batch_size : nat) : nat :=
  (n + batch_size - 1) / batch_size.

Definition fetch {A} (dataset : list A) (idxs : list nat) : list A :=
  flat_map (fun i => match nth_error dataset i with
                     | Some x => [x]
                     | None => []
                     end) idxs.

(** Default collation: the inputs and the label rows of the examples. *)
Definition collate {A B} (examples : list (A * B)) : list A * list B :=
  (map fst examples, map snd examples).

(** One pass over a loader built on the given batches of indices. *)
Definition DataLoader {A B} (dataset : list (A * B))
    (batches : list (list nat)) : list (list A * list B) :=
  map (fun idxs => collate (fetch dataset idxs)) batches.

End Data.

(* ------------------------------------------------------------------ *)
(** ** Checkpoint file names *)

Module Path.

(** [str(n)] for a non-negative integer. *)
Definition str (n : nat) : string := NilEmpty.string_of_uint (Nat.to_uint n).

(** ['%s_%s-%s.ckpt' % (global_step, epoch_idx, iter_idx)] *)
Definition ckpt_name (global_step epoch_idx iter_idx : nat) : string :=
  (str global_step ++ "_" ++ str epoch_idx ++ "-" ++ str iter_idx
     ++ ".ckpt")%string.

Fixpoint endswith_sep (s : string) : bool :=
  match s with
  | EmptyString => false
  | String c EmptyString => Ascii.eqb c "/"
  | String _ rest => endswith_sep rest
  end.

Definition startswith_sep (s : string) : bool :=
  match s with
  | String c _ => Ascii.eqb c "/"
  | EmptyString => false
  end.

(** [os.path.join(a, b)] (POSIX). *)
Definition join (a b : string) : string :=
  if startswith_sep b then b
  else match a with
       | EmptyString => b
       | _ => if endswith_sep a then (a ++ b)%string
              else (a ++ "/" ++ b)%string
       end.

Definition ckpt_path (ckpt_dir : string)
    (global_step epoch_idx iter_idx : nat) : string :=
  join ckpt_dir (ckpt_name global_step epoch_idx iter_idx).

End Path.

(* ------------------------------------------------------------------ *)
(** ** The program *)

Section Program.

Variable F : Framework.

Abbreviation State := (State F).
Abbreviation M := (M F).

(** *** Model and optimizer primitives *)

Definition with_training (b : bool) (m : Model F) : Model F :=
  {| training := b; state_dict := state_dict m; grad := grad m |}.

Definition model_train : M unit :=
  modify (fun s => set_model (with_training true (model s)) s).

Definition model_eval : M unit :=
  modify (fun s => set_model (with_training false (model s)) s).

(** [model(data)] *)
Definition model_call (data : list (Input F))
    : M (list (list Tensor.Logits)) :=
  gets (fun s => forward F (training (model s)) (state_dict (model s)) data).

(** [criterion(pred_logits, target)]: the loss is defined when there is
    one label per row of logits and every label is one of the three
    classes or the index that the loss ignores. *)
Definition criterion (pred_logits : list Tensor.Logits) (target : list Z)
    : M pyfloat :=
  if negb (length pred_logits =? length target) then raise ShapeMismatch
  else if negb (forallb Tensor.label_ok target) then raise IndexError
  else ret (CrossEntropyLoss F pred_logits target).

(** [optimizer.zero_grad()] *)
Definition optimizer_zero_grad : M unit :=
  modify (fun s =>
    let m := model s in
    set_model {| training := training m; state_dict := state_dict m;
                 grad := None |} s).

(** [loss.backward()]: the gradient [g] of the loss is added to what the
    buffers hold. *)
Definition loss_backward (g : Grad F) : M unit :=
  modify (fun s =>
    let m := model s in
    set_model {| training := training m; state_dict := state_dict m;
                 grad := Some (match grad m with
                               | None => g
                               | Some old => accumulate F old g
                               end) |} s).

(** [optimizer.step()]: parameters whose buffer is empty are skipped. *)
Definition optimizer_step : M unit :=
  modify (fun s =>
    let m := model s in
    let o := optimizer s in
    match grad m with
    | None => s
    | Some g =>
        let t := S (step_count o) in
        let '(mom, p) := Adam_update F (lr o) t (moments o) (state_dict m) g in
        set_optimizer {| lr := lr o; step_count := t; moments := mom |}
          (set_model {| training := training m; state_dict := p;
                        grad := grad m |} s)
    end).

(** *** train one batch *)
Definition train_step (data : list (Input F)) (target : list (list Z))
    : M (pyfloat * pyfloat) :=
  model_train ;;
  (* prediction *)
  m <- gets model ;;
  pred_logits <- model_call data ;;
  let pred_logits := Tensor.view pred_logits in
  let pred_class := Tensor.argmax pred_logits in
  let target' := Tensor.view target in
  loss <- criterion pred_logits target' ;;
  let acc_seq :=
    count_div (Tensor.sum (Tensor.eq pred_class target')) (length target') in
  (* update weights *)
  optimizer_zero_grad ;;
  loss_backward (gradient F (training m) (state_dict m) data target') ;;
  optimizer_step ;;
  ret (acc_seq, loss).

(** *** valid one batch *)
Definition valid_step (data : list (Input F)) (target : list (list Z))
    : M (pyfloat * pyfloat) :=
  model_eval ;;
  (* prediction *)
  pred_logits <- model_call data ;;
  let pred_logits := Tensor.view pred_logits in
  let pred_class := Tensor.argmax pred_logits in
  let target' := Tensor.view target in
  loss <- criterion pred_logits target' ;;
  let acc_seq :=
    count_div (Tensor.sum (Tensor.eq pred_class target')) (length target') in
  ret (acc_seq, loss).

(** *** main *)

(** [num_steps * (1 - acc) * step_stride / 2] *)
Definition timing_error (num_steps step_stride : Q) (acc : pyfloat)
    : pyfloat :=
  div_const
    (PyFloat.mul (PyFloat.mul (Fin num_steps) (PyFloat.sub (Fin 1) acc))
                 (Fin step_stride))
    2.

(** Reading a local variable that may be unbound. *)
Definition local (name : string) (get : State -> option pyfloat)
    : M pyfloat :=
  v <- gets get ;;
  match v with
  | Some x => ret x
  | None => raise (UnboundLocalError name)
  end.

Definition hundred : pyfloat := Fin 100.

Section Loop.

Variables (ckpt_dir : string) (cfg : Config).
Variables (train_set valid_set : list (Example F)).
Variable t : Q.

Let summary_step := rnn_summary_step cfg.
Let ckpt_step := rnn_ckpt_step cfg.
Let batch_size := Z.to_nat (rnn_batch_size cfg).

(** One pass over [train_loader] in the given epoch (shuffled). *)
Definition train_loader (epoch_idx : nat)
    : list (list (Input F) * list (list Z)) :=
  Data.DataLoader train_set
    (Data.BatchSampler batch_size
       (Data.RandomSampler false (rand F (2 * epoch_idx))
          (length train_set)) []).

(** One pass over [valid_loader]; a new pass is started at every
    logging step. *)
Definition valid_loader (global_step : nat)
    : list (list (Input F) * list (list Z)) :=
  Data.DataLoader valid_set
    (Data.BatchSampler batch_size
       (Data.RandomSampler true (rand F (2 * global_step + 1))
          (length valid_set)) []).

Definition num_batch : nat := Data.len (length train_set) batch_size.

(** Body of the validation loop (lines 68-72). *)
Definition valid_body (batch : list (Input F) * list (list Z))
    : M ctl :=
  let '(data, target) := batch in
  emit (ValidBatch data target) ;;
  '(acc, loss) <- valid_step data target ;;
  modify (set_valid acc loss
            (timing_error (num_steps cfg) (step_stride cfg) acc)) ;;
  ret Break.

(** Body of the training loop (lines 57-84). *)
Definition train_body (epoch_idx : nat)
    (item : nat * (list (Input F) * list (list Z))) : M ctl :=
  let '(iter_idx, (data, target)) := item in
  let global_step := num_batch * epoch_idx + iter_idx in
  '(train_acc, train_loss) <- train_step data target ;;
  p <- gets (fun s => state_dict (model s)) ;;
  emit (Trained epoch_idx iter_idx global_step p) ;;
  let train_dt := timing_error (num_steps cfg) (step_stride cfg) train_acc in
  (* save model *)
  r <- py_mod (Z.of_nat global_step) ckpt_step ;;
  (if (r =? 0)%Z
   then sd <- gets (fun s => state_dict (model s)) ;;
        emit (Save sd (Path.ckpt_path ckpt_dir global_step epoch_idx iter_idx))
   else ret tt) ;;
  (* valid & print summary *)
  r <- py_mod (Z.of_nat global_step) summary_step ;;
  if negb (r =? 0)%Z then ret Next else
  for_ (valid_loader global_step) valid_body ;;
  (* visualization *)
  valid_loss <- local "valid_loss" (@valid_loss F) ;;
  emit (Stdout (StepLine global_step iter_idx epoch_idx train_loss valid_loss
                 (time_time F (S global_step) - t))) ;;
  valid_acc <- local "valid_acc" (@valid_acc F) ;;
  valid_dt <- local "valid_dt" (@valid_dt F) ;;
  emit (Stdout (AccLine (PyFloat.mul hundred train_acc) train_dt
                 (PyFloat.mul hundred valid_acc) valid_dt)) ;;
  let sum_loss := [("train_loss", train_loss); ("valid_loss", valid_loss)]%string in
  let sum_acc := [("train_acc", PyFloat.mul train_acc hundred);
                  ("valid_acc", PyFloat.mul valid_acc hundred)]%string in
  let sum_dt := [("train_dt", train_dt); ("valid_dt", valid_dt)]%string in
  emit (AddScalars ckpt_dir "loss" sum_loss global_step) ;;
  emit (AddScalars ckpt_dir "seq_acc" sum_acc global_step) ;;
  emit (AddScalars ckpt_dir "dt_sec" sum_dt global_step) ;;
  ret Next.

(** The train loop (lines 55-84). *)
Definition train_loop : M unit :=
  for_ (range (rnn_num_epochs cfg)) (fun epoch_idx =>
    for_ (enumerate (train_loader epoch_idx)) (train_body epoch_idx) ;;
    ret Next).

End Loop.

(** The result of a run: what it did to the outside world and either the
    exception that stopped it or the final state. *)
Definition Run : Type := (list (event F) * (exn + State))%type.

(** Lines 21-22: the checkpoint directory is created when missing. *)
Definition created (args : Args) : list (event F) :=
  if os_path_exists F (ckpt_dir args) then [] else [Makedirs (ckpt_dir args)].

(** Lines 44-51: the model as constructed (in training mode, buffers
    empty), optionally re-initialised, and a new Adam optimizer. *)
Definition initial_state (args : Args) : State :=
  let cfg := config_Config F in
  let p := if to_init_rnn cfg then apply_init_weights F (PpkNet F)
           else PpkNet F in
  {| model := {| training := true; state_dict := p; grad := None |};
     optimizer := {| lr := rnn_lr cfg; step_count := 0;
                     moments := Adam_init F |};
     valid_acc := None; valid_loss := None; valid_dt := None;
     trace := created args |}.

(** Lines 38-39: the samplers reject a batch size that is not positive
    and a split without examples. *)
Definition loaders_rejected (cfg : Config)
    (train_set valid_set : list (Example F))
    : bool :=
  (rnn_batch_size cfg <=? 0)%Z
  || (length train_set =? 0) || (length valid_set =? 0).

Definition main (args : Args) : Run :=
  (* training params *)
  let cfg := config_Config F in
  (* set data loader *)
  let train_set := Sequences F (zarr_path args) "train" in
  let valid_set := Sequences F (zarr_path args) "valid" in
  if loaders_rejected cfg train_set valid_set
  then (created args, inl ValueError) else
  (* train loop *)
  let t := time_time F 0 in
  match train_loop (ckpt_dir args) cfg train_set valid_set t
          (initial_state args) with
  | (s, inr _) => (trace s, inr s)
  | (s, inl e) => (trace s, inl e)
  end.

(** The [__main__] block: the value given to CUDA_VISIBLE_DEVICES and
    the run of [main]. *)
Definition script (args : Args) : string * Run :=
  (gpu_idx args, main args).

End Program.

Arguments main F args : clear implicits.
Arguments created F args : clear implicits.
Arguments initial_state F args : clear implicits.
Arguments train_step {F} data target s.
Arguments valid_step {F} data target s.

(* ------------------------------------------------------------------ *)
(** ** A small concrete framework

    Parameters are a single integer, the model scores a time step from its
    feature and the parameter, the gradient is the number of labels and
    the optimizer subtracts it.  Used to run the program on examples. *)

Module Toy.

Local Open Scope string_scope.

Definition score (p : Z) (x : Q) : Tensor.Logits := (x, inject_Z p, 0%Q).

Definition framework (cfg : Config) (train valid : list (list Q * list Z))
    : Framework :=
  {| Params := Z; Grad := Z; Moments := unit; Input := list Q;
     PpkNet := 0%Z;
     forward := fun _ p data => map (map (score p)) data;
     CrossEntropyLoss := fun rows _ => Fin (inject_Z (Z.of_nat (length rows)));
     gradient := fun _ _ _ target => Z.of_nat (length target);
     accumulate := Z.add;
     Adam_init := tt;
     Adam_update := fun _ _ m p g => (m, (p - g)%Z);
     apply_init_weights := fun p => p;
     Sequences := fun _ split =>
       if String.eqb split "train" then train else valid;
     config_Config := cfg;
     rand := fun k j => (k + j)%nat;
     time_time := fun n => inject_Z (Z.of_nat n);
     os_path_exists := fun _ => false |}.

Definition config (epochs summary ckpt batch : Z) : Config :=
  {| rnn_lr := 1 # 1000; rnn_num_epochs := epochs;
     rnn_summary_step := summary; rnn_ckpt_step := ckpt;
     to_init_rnn := true; num_steps := 8; step_stride := 1 # 2;
     rnn_batch_size := batch; rnn_num_workers := 0 |}.

Definition example (a b : Q) (l1 l2 : Z) : list Q * list Z :=
  ([a; b], [l1; l2]).

Definition split3 : list (list Q * list Z) :=
  [example 1 0 0 1; example 0 2 2 0; example (-1) (-1) 2 2].

Definition split4 : list (list Q * list Z) :=
  example 3 3 0 0 :: split3.

Definition args : Args :=
  {| gpu_idx := "0"; zarr_path := Some "data.zarr"; ckpt_dir := "out";
     resume := None |}.

End Toy.

(* ------------------------------------------------------------------ *)
(** ** Specification-level notions for the two step functions *)

Section StepNotions.

Variable F : Framework.

(** The scalars both step functions return, as a function of the logits
    rows and the flattened labels. *)
Definition metrics (rows : list Tensor.Logits) (labels : list Z)
    : pyfloat * pyfloat :=
  (count_div (Tensor.sum (Tensor.eq (Tensor.argmax rows) labels))
             (length labels),
   CrossEntropyLoss F rows labels).

(** One logits row per label. *)
Definition aligned (training : bool) (p : Params F) (data : list (Input F))
    (target : list (list Z)) : Prop :=
  length (Tensor.view (forward F training p data))
  = length (Tensor.view target).

(** Every label is one the loss accepts. *)
Definition in_range (target : list (list Z)) : Prop :=
  forallb Tensor.label_ok (Tensor.view target) = true.

(** The loss accepts the logits of the model for the labels. *)
Definition accepted (training : bool) (p : Params F) (data : list (Input F))
    (target : list (list Z)) : Prop :=
  aligned training p data target /\ in_range target.

(** The loss refuses them with the exception [x]. *)
Definition refused (training : bool) (p : Params F) (data : list (Input F))
    (target : list (list Z)) (x : exn) : Prop :=
  (~ aligned training p data target /\ x = ShapeMismatch)
  \/ (aligned training p data target /\ ~ in_range target /\ x = IndexError).

(** What the loss makes of rows of logits and labels: the exception it
    raises, if any. *)
Definition verdict (rows : list Tensor.Logits) (labels : list Z)
    : option exn :=
  if negb (length rows =? length labels) then Some ShapeMismatch
  else if negb (forallb Tensor.label_ok labels) then Some IndexError
  else None.

(** The state a successful training step leaves behind. *)
Definition trained (data : list (Input F)) (target : list (list Z))
    (s : State F) : State F :=
  let m := model s in
  let o := optimizer s in
  let g := gradient F true (state_dict m) data (Tensor.view target) in
  let t := S (step_count o) in
  let '(mom, p) := Adam_update F (lr o) t (moments o) (state_dict m) g in
  {| model := {| training := true; state_dict := p; grad := Some g |};
     optimizer := {| lr := lr o; step_count := t; moments := mom |};
     valid_acc := valid_acc s; valid_loss := valid_loss s;
     valid_dt := valid_dt s; trace := trace s |}.

(** The state [s] with other contents in the gradient buffers. *)
Definition with_grad (old : option (Grad F)) (s : State F) : State F :=
  set_model {| training := training (model s);
               state_dict := state_dict (model s); grad := old |} s.

End StepNotions.

Arguments aligned {F} training p data target.
Arguments accepted {F} training p data target.
Arguments refused {F} training p data target x.
Arguments trained {F} data target s.
Arguments with_grad {F} old s.

Module ToyState.

(** A state of the toy framework before any update. *)
Definition initial (cfg : Config) (train valid : list (list Q * list Z))
    : State (Toy.framework cfg train valid) :=
  let F := Toy.framework cfg train valid in
  Build_State F
    (Build_Model F true 0%Z None)
    (Build_Optimizer F (rnn_lr cfg) 0 tt)
    None None None [].

(** The framework and the state used in the examples on single steps. *)
Definition F1 : Framework :=
  Toy.framework (Toy.config 1 1 1 2) Toy.split3 Toy.split4.

Definition s1 : State F1 :=
  initial (Toy.config 1 1 1 2) Toy.split3 Toy.split4.

Definition data1 : list (Input F1) := [[1; 0]%Q].

Definition target1 : list (list Z) := [[0; 1]%Z].

End ToyState.

(* ------------------------------------------------------------------ *)
(** ** Reading a trace *)

Section Reading.

Variable F : Framework.

(** The loop iterations whose training step returned, in order:
    (epoch_idx, iter_idx, global_step, parameters after the update). *)
Definition iterations (tr : list (event F))
    : list (nat * nat * nat * Params F) :=
  flat_map (fun ev => match ev with
                      | Trained e i g p => [(e, i, g, p)]
                      | _ => []
                      end) tr.

Definition step_of (it : nat * nat * nat * Params F) : nat :=
  let '(_, _, g, _) := it in g.

(** The files written, in order: (object, path). *)
Definition saves (tr : list (event F)) : list (Params F * string) :=
  flat_map (fun ev => match ev with
                      | Save p path => [(p, path)]
                      | _ => []
                      end) tr.

(** The validation batches drawn, in order. *)
Definition draws (tr : list (event F))
    : list (list (Input F) * list (list Z)) :=
  flat_map (fun ev => match ev with
                      | ValidBatch d t => [(d, t)]
                      | _ => []
                      end) tr.

(** What is left of an event when the values it carries are forgotten. *)
Inductive mark : Type :=
| MIteration (global_step : nat)
| MDraw
| MPrint
| MScalars (main_tag : string) (tags : list string) (global_step : nat).

(** The iterations and the actions of the metric logger, in order. *)
Definition marks (tr : list (event F)) : list mark :=
  flat_map (fun ev => match ev with
                      | Trained _ _ g _ => [MIteration g]
                      | ValidBatch _ _ => [MDraw]
                      | Stdout _ => [MPrint]
                      | AddScalars _ tag dict g => [MScalars tag (map fst dict) g]
                      | Makedirs _ | Save _ _ => []
                      end) tr.

Definition locals (s : State F)
    : option pyfloat * option pyfloat * option pyfloat :=
  (valid_acc s, valid_loss s, valid_dt s).

End Reading.

Arguments iterations {F} tr.
Arguments step_of {F} it.
Arguments saves {F} tr.
Arguments draws {F} tr.
Arguments marks {F} tr.
Arguments locals {F} s.

(** Whether an interval divides a global step. *)
Definition fires (interval : Z) (global_step : nat) : bool :=
  (Z.of_nat global_step mod interval =? 0)%Z.

(** What one firing of the metric logger at [global_step] leaves in the
    trace once the values are forgotten. *)
Definition logger_marks (global_step : nat) : list mark :=
  [MDraw; MPrint; MPrint;
   MScalars "loss" ["train_loss"; "valid_loss"]%string global_step;
   MScalars "seq_acc" ["train_acc"; "valid_acc"]%string global_step;
   MScalars "dt_sec" ["train_dt"; "valid_dt"]%string global_step].

(* ------------------------------------------------------------------ *)
(** ** The paths through one iteration of the training loop *)

Section Paths.

Variable F : Framework.
Variables (ckpt_dir : string) (cfg : Config).
Variables (train_set valid_set : list (Example F)).
Variable t0 : Q.

(** The checkpoint written (or not) in iteration [(e, i)] at step [g]. *)
Definition save_part (e i g : nat) (p : Params F) : list (event F) :=
  if fires (rnn_ckpt_step cfg) g
  then [Save p (Path.ckpt_path ckpt_dir g e i)]
  else [].

(** The two lines and three groups of scalars of one logging event. *)
Definition report (e i g : nat) (train_acc train_loss vacc vloss : pyfloat)
    : list (event F) :=
  let train_dt := timing_error (num_steps cfg) (step_stride cfg) train_acc in
  let vdt := timing_error (num_steps cfg) (step_stride cfg) vacc in
  [Stdout (StepLine g i e train_loss vloss (time_time F (S g) - t0));
   Stdout (AccLine (PyFloat.mul hundred train_acc) train_dt
                  (PyFloat.mul hundred vacc) vdt);
   AddScalars ckpt_dir "loss"
     [("train_loss", train_loss); ("valid_loss", vloss)]%string g;
   AddScalars ckpt_dir "seq_acc"
     [("train_acc", PyFloat.mul train_acc hundred);
      ("valid_acc", PyFloat.mul vacc hundred)]%string g;
   AddScalars ckpt_dir "dt_sec"
     [("train_dt", train_dt); ("valid_dt", vdt)]%string g].

(** What follows the training step of iteration [(e, i)] at step [g]:
    [p] are the parameters it left, [train_acc] and [train_loss] what it
    returned and [before] the three validation locals at that point.  Each
    constructor is one path through lines 62-84; it gives the validation
    locals afterwards, how the body ends and the events it emits. *)
Inductive tail (e i g : nat) (p : Params F) (train_acc train_loss : pyfloat)
    (before : option pyfloat * option pyfloat * option pyfloat)
    : option pyfloat * option pyfloat * option pyfloat ->
      exn + ctl -> list (event F) -> Prop :=
| tail_ckpt_zero :
    rnn_ckpt_step cfg = 0%Z ->
    tail e i g p train_acc train_loss before
      before (inl ZeroDivisionError) []
| tail_summary_zero :
    rnn_ckpt_step cfg <> 0%Z -> rnn_summary_step cfg = 0%Z ->
    tail e i g p train_acc train_loss before
      before (inl ZeroDivisionError) (save_part e i g p)
| tail_quiet :
    rnn_ckpt_step cfg <> 0%Z -> rnn_summary_step cfg <> 0%Z ->
    fires (rnn_summary_step cfg) g = false ->
    tail e i g p train_acc train_loss before
      before (inr Next) (save_part e i g p)
| tail_unbound :
    rnn_ckpt_step cfg <> 0%Z -> rnn_summary_step cfg <> 0%Z ->
    fires (rnn_summary_step cfg) g = true ->
    valid_loader F cfg valid_set g = [] ->
    snd (fst before) = None ->
    tail e i g p train_acc train_loss before
      before (inl (UnboundLocalError "valid_loss")) (save_part e i g p)
| tail_refused d t rest x :
    rnn_ckpt_step cfg <> 0%Z -> rnn_summary_step cfg <> 0%Z ->
    fires (rnn_summary_step cfg) g = true ->
    valid_loader F cfg valid_set g = (d, t) :: rest ->
    refused false p d t x ->
    tail e i g p train_acc train_loss before
      before (inl x) (save_part e i g p ++ [ValidBatch d t])
| tail_report d t rest vacc vloss :
    rnn_ckpt_step cfg <> 0%Z -> rnn_summary_step cfg <> 0%Z ->
    fires (rnn_summary_step cfg) g = true ->
    valid_loader F cfg valid_set g = (d, t) :: rest ->
    accepted false p d t ->
    metrics F (Tensor.view (forward F false p d)) (Tensor.view t)
    = (vacc, vloss) ->
    tail e i g p train_acc train_loss before
      (Some vacc, Some vloss,
       Some (timing_error (num_steps cfg) (step_stride cfg) vacc))
      (inr Next)
      (save_part e i g p ++ ValidBatch d t
         :: report e i g train_acc train_loss vacc vloss).

(** The outcomes of iteration [(e, i)] on the batch [(d, t)] from [s]. *)
Inductive body_outcome (e i : nat) (d : list (Input F))
    (t : list (list Z)) (s : State F) : State F * (exn + ctl) -> Prop :=
| outcome_train_failed s' x :
    refused true (state_dict (model s)) d t x ->
    trace s' = trace s ->
    locals s' = locals s ->
    body_outcome e i d t s (s', inl x)
| outcome_trained s' r seg :
    accepted true (state_dict (model s)) d t ->
    let g := num_batch F cfg train_set * e + i in
    let p := state_dict (model (trained d t s)) in
    let rows := Tensor.view (forward F true (state_dict (model s)) d) in
    trace s' = trace s ++ Trained e i g p :: seg ->
    tail e i g p (fst (metrics F rows (Tensor.view t)))
      (snd (metrics F rows (Tensor.view t))) (locals s) (locals s') r seg ->
    body_outcome e i d t s (s', r).

End Paths.

(* ------------------------------------------------------------------ *)
(** ** Properties of the list of iterations *)

(** The iterations carry the global steps 0, 1, 2, ... in this order, and
    each global step is [nb * epoch_idx + iter_idx] with [iter_idx] below
    [nb] and [epoch_idx] below [epochs]. *)
Definition well_numbered {F} (nb epochs : nat)
    (its : list (nat * nat * nat * Params F)) : Prop :=
  map step_of its = seq 0 (length its)
  /\ Forall (fun it => let '(e, i, g, _) := it in
                       g = nb * e + i /\ i < nb /\ e < epochs) its.

(** Decimal digits, as [str] produces them. *)
Definition is_digit (c : ascii) : bool :=
  match c with
  | "0" | "1" | "2" | "3" | "4" | "5" | "6" | "7" | "8" | "9" => true
  | _ => false
  end%char.

Fixpoint all_digits (s : string) : bool :=
  match s with
  | EmptyString => true
  | String c rest => is_digit c && all_digits rest
  end.

(** The checkpoint that iteration [it] writes when it is due. *)
Definition checkpoint_of {F} (dir : string)
    (it : nat * nat * nat * Params F) : Params F * string :=
  let '(e, i, g, p) := it in (p, Path.ckpt_path dir g e i).

(** Whether an interval divides the global step of iteration [it]. *)
Definition due {F} (interval : Z) (it : nat * nat * nat * Params F) : bool :=
  fires interval (step_of it).

Module ToyRun.

(** Two epochs over three training examples in batches of two, a
    checkpoint every two steps, a summary every three steps, four
    validation examples. *)
Definition F2 : Framework :=
  Toy.framework (Toy.config 2 3 2 2) Toy.split3 Toy.split4.

(** One epoch, a checkpoint and a summary at every step. *)
Definition F3 : Framework :=
  Toy.framework (Toy.config 1 1 1 2) Toy.split3 Toy.split4.


End ToyRun.

(** What one iteration at [global_step] leaves in the trace, values
    forgotten, when the metric logger has the given interval. *)
Definition iteration_marks (interval : Z) (global_step : nat) : list mark :=
  MIteration global_step
    :: (if fires interval global_step then logger_marks global_step else []).

(* ------------------------------------------------------------------ *)
(** ** The scalars logged *)

(** The groups of scalars appended to the log, in order:
    (main_tag, tag_scalar_dict, global_step). *)
Definition scalars {F} (tr : list (event F))
    : list (string * list (string * pyfloat) * nat) :=
  flat_map (fun ev => match ev with
                      | AddScalars _ tag dict g => [(tag, dict, g)]
                      | _ => []
                      end) tr.

(** The three groups of one logging event at step [g], from the accuracy
    and loss of the training step ([a], [l]) and of the validation step
    ([va], [vl]). *)
Definition scalar_groups (ns ss : Q)
    (row : nat * pyfloat * pyfloat * pyfloat * pyfloat)
    : list (string * list (string * pyfloat) * nat) :=
  let '(g, a, l, va, vl) := row in
  [("loss", [("train_loss", l); ("valid_loss", vl)], g);
   ("seq_acc", [("train_acc", PyFloat.mul a hundred);
                ("valid_acc", PyFloat.mul va hundred)], g);
   ("dt_sec", [("train_dt", timing_error ns ss a);
               ("valid_dt", timing_error ns ss va)], g)]%string.

(* ------------------------------------------------------------------ *)
(** ** Accuracy in the words of the specification *)

Definition entries (r : Tensor.Logits) : list Q :=
  let '(a, b, c) := r in [a; b; c].

(** The class [c] is the arg-max of the row [r]: the entry of [c] is not
    below any entry of the row and is above every entry before it. *)
Definition arg_max_class (r : Tensor.Logits) (c : Z) : Prop :=
  (0 <= c)%Z
  /\ exists x,
       nth_error (entries r) (Z.to_nat c) = Some x
       /\ Forall (fun y => (y <= x)%Q) (entries r)
       /\ Forall (fun y => (y < x)%Q) (firstn (Z.to_nat c) (entries r)).

(** [correct_steps rows labels n]: among the time steps, [n] have a label
    that is the arg-max class of their row. *)
Inductive correct_steps : list Tensor.Logits -> list Z -> nat -> Prop :=
| correct_none : correct_steps [] [] 0
| correct_hit r l rows labels n :
    arg_max_class r l -> correct_steps rows labels n ->
    correct_steps (r :: rows) (l :: labels) (S n)
| correct_miss r l rows labels n :
    ~ arg_max_class r l -> correct_steps rows labels n ->
    correct_steps (r :: rows) (l :: labels) n.

(** A batch of two time steps labelled 0 and 3: the second label is not a
    class. *)
Module ToyLabels.

Definition data3 : list (list Q) := [[1; 0]%Q].

Definition target3 : list (list Z) := [[0; 3]%Z].

End ToyLabels.

(* ------------------------------------------------------------------ *)
(** ** What training owns *)

Section Weights.

Variable F : Framework.

(** Parameters, gradient buffers and optimizer: the part of the state
    that only the training step is meant to change. *)
Definition weights (s : State F)
    : Params F * option (Grad F) * Optimizer F :=
  (state_dict (model s), grad (model s), optimizer s).

(** A computation that leaves the weights alone, however it ends. *)
Definition keeps_weights {A} (c : M F A) : Prop :=
  forall s, weights (fst (c s)) = weights s.

(** A loop body that never asks to leave the loop. *)
Definition never_breaks (c : M F ctl) : Prop :=
  forall s, snd (c s) <> inr Break.

(** Training on the given batches and doing nothing else. *)
Definition train_only (batches : list (list (Input F) * list (list Z)))
    (s : State F) : State F :=
  fold_left (fun s b => trained (fst b) (snd b) s) batches s.

End Weights.

Arguments weights {F} s.
Arguments keeps_weights {F A} c.
Arguments never_breaks {F} c.
Arguments train_only {F} batches s.

Module ToyEdge.

(** A checkpoint interval of zero. *)
Definition F_ckpt0 : Framework :=
  Toy.framework (Toy.config 1 1 0 2) Toy.split3 Toy.split4.

(** A summary interval of zero. *)
Definition F_summary0 : Framework :=
  Toy.framework (Toy.config 1 0 1 2) Toy.split3 Toy.split4.


(** Labels for three time steps where the model emits two rows. *)
Definition data_bad : list (list Q) := [[1; 0]%Q].

Definition target_bad : list (list Z) := [[0; 1; 2]%Z].

End ToyEdge.

(* ------------------------------------------------------------------ *)
(** ** Where a run writes *)

(** An event after start-up that stays inside the checkpoint directory:
    a file saved under a checkpoint name in it, or scalars logged to it;
    no directory is created. *)
Definition confined {F} (dir : string) (ev : event F) : Prop :=
  match ev with
  | Makedirs _ => False
  | Save _ path => exists g e i, path = Path.ckpt_path dir g e i
  | AddScalars log_dir _ _ _ => log_dir = dir
  | Trained _ _ _ _ | ValidBatch _ _ | Stdout _ => True
  end.

(** A batch made only of examples of the given split. *)
Definition drawn_from {A B} (split : list (A * B)) (batch : list A * list B)
    : Prop :=
  forall ex, In ex (combine (fst batch) (snd batch)) -> In ex split.

Module ToyEmpty.

(** A batch of one sequence without time steps. *)
Definition data0 : list (list Q) := [[]].

Definition target0 : list (list Z) := [[]].

End ToyEmpty.

(* ------------------------------------------------------------------ *)
(** ** Weight initialisation (init_weights, lines 118-126)

    [model.apply(init_weights)] visits every module of the model, the
    children of a module before the module itself.  A tensor is the list
    of its entries: the initialisers work in place and keep the shape, and
    the weights of linear and recurrent layers are matrices, as the random
    initialisers require.  The random initialisers take their values from
    a source indexed by the kind of initialiser, the number of the call and
    the position in the tensor. *)

Module Init.

Local Open Scope string_scope.

Definition tensor : Type := list Q.

Inductive module : Type :=
| Linear (weight : tensor) (bias : option tensor)
| GRU (named_parameters : list (string * tensor))
| Other (named_parameters : list (string * tensor)).

Inductive tree : Type :=
| Node (m : module) (children : forest)
with forest : Type :=
| NoChild
| Child (t : tree) (rest : forest).

Inductive exn : Type :=
| AttributeError.          (* a method called on None *)

Inductive initialiser : Type := Kaiming | Xavier | Orthogonal.

(** State: the number of calls of random initialisers so far. *)
Definition M (A : Type) : Type := nat -> exn + (A * nat).

Definition ret {A} (a : A) : M A := fun k => inr (a, k).

Definition bind {A B} (c : M A) (f : A -> M B) : M B :=
  fun k => match c k with
           | inl e => inl e
           | inr (a, k') => f a k'
           end.

Definition raise {A} (e : exn) : M A := fun _ => inl e.

Declare Scope init_scope.
Delimit Scope init_scope with init.
Notation "x <- c1 ;; c2" := (bind c1 (fun x => c2))
  (at level 61, c1 at next level, right associativity) : init_scope.
Local Open Scope init_scope.

(** [sub in s] on strings. *)
Fixpoint contains (sub s : string) : bool :=
  if String.prefix sub s then true
  else match s with
       | EmptyString => false
       | String _ rest => contains sub rest
       end.

(** [t.fill_(v)] *)
Definition fill_ (t : tensor) (v : Q) : tensor := map (fun _ => v) t.

Section WithRandomSource.

Variable source : initialiser -> nat -> nat -> Q.

(** [nn.init.kaiming_uniform_], [xavier_uniform_], [orthogonal_] *)
Definition random_ (kind : initialiser) (t : tensor) : M tensor :=
  fun k => inr (map (source kind k) (seq 0 (length t)), S k).

(** [nn.init.constant_(t, v)]; the bias of a linear layer built with
    [bias=False] is [None]. *)
Definition constant_ (t : option tensor) (v : Q) : M tensor :=
  match t with
  | Some x => ret (fill_ x v)
  | None => raise AttributeError
  end.

(** Lines 124-126, for one named parameter of a recurrent layer. *)
Definition init_parameter (named : string * tensor) : M (string * tensor) :=
  let '(name, param) := named in
  if contains "weight_ih" name then
    p <- random_ Xavier param ;; ret (name, p)
  else if contains "weight_hh" name then
    p <- random_ Orthogonal param ;; ret (name, p)
  else if contains "bias" name then ret (name, fill_ param 0)
  else ret (name, param).

(** [for x in xs: f(x)], collecting what [f] leaves. *)
Fixpoint for_each {A} (f : A -> M A) (xs : list A) : M (list A) :=
  match xs with
  | [] => ret []
  | x :: rest => y <- f x ;; ys <- for_each f rest ;; ret (y :: ys)
  end.

Definition init_weights (m : module) : M module :=
  match m with
  | Linear weight bias =>
      w <- random_ Kaiming weight ;;
      b <- constant_ bias 0 ;;
      ret (Linear w (Some b))
  | GRU named_parameters =>
      ps <- for_each init_parameter named_parameters ;;
      ret (GRU ps)
  | Other _ => ret m
  end.

End WithRandomSource.

(** [module.apply(fn)]: the children first, then the module itself. *)
Fixpoint apply (fn : module -> M module) (t : tree) : M tree :=
  match t with
  | Node m children =>
      cs <- apply_children fn children ;;
      m' <- fn m ;;
      ret (Node m' cs)
  end
with apply_children (fn : module -> M module) (f : forest) : M forest :=
  match f with
  | NoChild => ret NoChild
  | Child t rest =>
      t' <- apply fn t ;;
      rest' <- apply_children fn rest ;;
      ret (Child t' rest')
  end.

(** *** Reading the outcome *)

(** The modules of a model in the order in which [apply] visits them. *)
Fixpoint modules (t : tree) : list module :=
  match t with
  | Node m children => forest_modules children ++ [m]
  end
with forest_modules (f : forest) : list module :=
  match f with
  | NoChild => []
  | Child t rest => modules t ++ forest_modules rest
  end.

(** The model with the contents of its modules forgotten. *)
Fixpoint skeleton (t : tree) : tree :=
  match t with
  | Node _ children => Node (Other []) (forest_skeleton children)
  end
with forest_skeleton (f : forest) : forest :=
  match f with
  | NoChild => NoChild
  | Child t rest => Child (skeleton t) (forest_skeleton rest)
  end.

Definition has_bias (m : module) : bool :=
  match m with
  | Linear _ None => false
  | _ => true
  end.

Definition zeros (n : nat) : tensor := repeat 0%Q n.

(** What the name of a parameter of a recurrent layer selects. *)
Inductive role : Type := InputWeight | HiddenWeight | Bias | Untouched.

Definition role_of (name : string) : role :=
  if contains "weight_ih" name then InputWeight
  else if contains "weight_hh" name then HiddenWeight
  else if contains "bias" name then Bias
  else Untouched.

(** A named parameter before and after initialisation. *)
Definition parameter_initialised (before after : string * tensor) : Prop :=
  fst after = fst before
  /\ length (snd after) = length (snd before)
  /\ (role_of (fst before) = Bias -> snd after = zeros (length (snd before)))
  /\ (role_of (fst before) = Untouched -> snd after = snd before).

(** A module before and after initialisation. *)
Definition initialised (before after : module) : Prop :=
  match before, after with
  | Linear w b, Linear w' b' =>
      length w' = length w
      /\ exists b0, b = Some b0 /\ b' = Some (zeros (length b0))
  | GRU ps, GRU ps' => Forall2 parameter_initialised ps ps'
  | Other ps, Other ps' => ps' = ps
  | _, _ => False
  end.

(** What [apply] of [init_weights] does on a tree and on a forest: it
    returns an initialised model of the same structure when every linear
    layer has a bias, and raises otherwise. *)
Definition tree_outcome (source : initialiser -> nat -> nat -> Q) (t : tree)
    : Prop :=
  forall k,
    if forallb has_bias (modules t)
    then exists t' k',
           apply (init_weights source) t k = inr (t', k')
           /\ Forall2 initialised (modules t) (modules t')
           /\ skeleton t' = skeleton t
    else apply (init_weights source) t k = inl AttributeError.

Definition forest_outcome (source : initialiser -> nat -> nat -> Q)
    (f : forest) : Prop :=
  forall k,
    if forallb has_bias (forest_modules f)
    then exists f' k',
           apply_children (init_weights source) f k = inr (f', k')
           /\ Forall2 initialised (forest_modules f) (forest_modules f')
           /\ forest_skeleton f' = forest_skeleton f
    else apply_children (init_weights source) f k = inl AttributeError.

(** No character [c] in [s]. *)
Fixpoint lacks (c : ascii) (s : string) : bool :=
  match s with
  | EmptyString => true
  | String a rest => negb (Ascii.eqb a c) && lacks c rest
  end.

(** A model to run the initialisation on: a linear layer and a
    bidirectional recurrent layer under a container. *)
Definition example_model : tree :=
  Node (Other [])
    (Child (Node (GRU [("weight_ih_l0", [1; 2]%Q); ("weight_hh_l0", [3]%Q);
                       ("bias_ih_l0", [4; 5]%Q); ("bias_hh_l0_reverse", [6]%Q)])
                 NoChild)
       (Child (Node (Linear [7; 8]%Q (Some [9]%Q)) NoChild) NoChild)).

(** The same with a linear layer built without bias. *)
Definition example_model_no_bias : tree :=
  Node (Other [])
    (Child (Node (Linear [7; 8]%Q None) NoChild) NoChild).

Definition example_source (kind : initialiser) (call pos : nat) : Q :=
  inject_Z (Z.of_nat (call + pos)).

End Init.

(* ------------------------------------------------------------------ *)
(** ** Examples of the toy framework that the loss accepts *)

(** An example with as many labels as inputs, all of them classes. *)
Definition well_formed (ex : list Q * list Z) : Prop :=
  length (fst ex) = length (snd ex)
  /\ forallb Tensor.label_ok (snd ex) = true.

(* ------------------------------------------------------------------ *)
(** ** The two step functions *)

Section Steps.

Variable F : Framework.

Lemma verdict_accepted (training : bool) (p : Params F)
    (data : list (Input F)) (target : list (list Z)) :
  accepted training p data target
  <-> verdict (Tensor.view (forward F training p data)) (Tensor.view target)
      = None.
Proof.
  unfold accepted, aligned, in_range, verdict.
  destruct (length _ =? length _) eqn:Hlen; cbn [negb].
  - apply Nat.eqb_eq in Hlen.
    destruct (forallb Tensor.label_ok (Tensor.view target)); cbn [negb];
      intuition congruence.
  - apply Nat.eqb_neq in Hlen. intuition congruence.
Qed.

Lemma verdict_refused (training : bool) (p : Params F)
    (data : list (Input F)) (target : list (list Z)) (x : exn) :
  refused training p data target x
  <-> verdict (Tensor.view (forward F training p data)) (Tensor.view target)
      = Some x.
Proof.
  unfold refused, aligned, in_range, verdict.
  destruct (length _ =? length _) eqn:Hlen; cbn [negb].
  - apply Nat.eqb_eq in Hlen.
    destruct (forallb Tensor.label_ok (Tensor.view target)); cbn [negb];
      intuition congruence.
  - apply Nat.eqb_neq in Hlen. intuition congruence.
Qed.

Lemma accepted_or_refused (training : bool) (p : Params F)
    (data : list (Input F)) (target : list (list Z)) :
  accepted training p data target
  \/ exists x, refused training p data target x.
Proof.
  destruct (verdict (Tensor.view (forward F training p data))
              (Tensor.view target)) as [x|] eqn:Hv.
  - right. exists x. apply verdict_refused. exact Hv.
  - left. apply verdict_accepted. exact Hv.
Qed.

Lemma refused_not_accepted (training : bool) (p : Params F)
    (data : list (Input F)) (target : list (list Z)) (x : exn) :
  refused training p data target x -> ~ accepted training p data target.
Proof.
  intros Hr Ha. apply verdict_refused in Hr. apply verdict_accepted in Ha.
  congruence.
Qed.

Lemma refused_not_arithmetic (training : bool) (p : Params F)
    (data : list (Input F)) (target : list (list Z)) (x : exn) :
  refused training p data target x ->
  x <> ZeroDivisionError /\ forall name, x <> UnboundLocalError name.
Proof.
  intros [(_ & ->)|(_ & _ & ->)]; split; try intros ?; discriminate.
Qed.

Lemma train_step_unfold (data : list (Input F)) (target : list (list Z))
    (s : State F) :
  train_step data target s =
  let rows := Tensor.view (forward F true (state_dict (model s)) data) in
  let labels := Tensor.view target in
  match verdict rows labels with
  | None => (trained data target s, inr (metrics F rows labels))
  | Some x => (set_model (with_training F true (model s)) s, inl x)
  end.
Proof.
  unfold train_step, trained, metrics, verdict, bind, model_train, model_call,
    criterion, optimizer_zero_grad, loss_backward, optimizer_step, gets,
    modify, ret, raise.
  cbn.
  destruct (negb (length _ =? length _)); cbn; [reflexivity|].
  destruct (negb (forallb _ _)); cbn; [reflexivity|].
  destruct (Adam_update F _ _ _ _ _); reflexivity.
Qed.

Lemma valid_step_unfold (data : list (Input F)) (target : list (list Z))
    (s : State F) :
  valid_step data target s =
  let rows := Tensor.view (forward F false (state_dict (model s)) data) in
  let labels := Tensor.view target in
  (set_model (with_training F false (model s)) s,
   match verdict rows labels with
   | None => inr (metrics F rows labels)
   | Some x => inl x
   end).
Proof.
  unfold valid_step, metrics, verdict, bind, model_eval, model_call, criterion,
    gets, modify, ret, raise.
  cbn.
  destruct (negb (length _ =? length _)); cbn; [reflexivity|].
  destruct (negb (forallb _ _)); reflexivity.
Qed.

Lemma trained_trace data target (s : State F) :
  trace (trained data target s) = trace s.
Proof. unfold trained. destruct (Adam_update F _ _ _ _ _); reflexivity. Qed.

Lemma trained_locals data target (s : State F) :
  valid_acc (trained data target s) = valid_acc s
  /\ valid_loss (trained data target s) = valid_loss s
  /\ valid_dt (trained data target s) = valid_dt s.
Proof. unfold trained. destruct (Adam_update F _ _ _ _ _); cbn; auto. Qed.

End Steps.

(* ------------------------------------------------------------------ *)
(** ** Accuracy *)

Lemma sum_eq_le (a b : list Z) : Tensor.sum (Tensor.eq a b) <= length b.
Proof.
  unfold Tensor.sum, Tensor.eq.
  etransitivity; [apply filter_length_le|].
  rewrite length_map, length_combine. apply Nat.le_min_r.
Qed.

Lemma count_div_unit (count total : nat) :
  count <= total -> 0 < total -> in_unit_interval (count_div count total).
Proof.
  intros Hle Hpos. destruct total as [|n]; [lia|].
  cbn [count_div in_unit_interval]. split.
  - apply Qle_shift_div_l.
    + change 0%Q with (inject_Z 0). rewrite <- Zlt_Qlt. lia.
    + rewrite Qmult_0_l. change 0%Q with (inject_Z 0). rewrite <- Zle_Qle. lia.
  - apply Qle_shift_div_r.
    + change 0%Q with (inject_Z 0). rewrite <- Zlt_Qlt. lia.
    + rewrite Qmult_1_l. rewrite <- Zle_Qle. lia.
Qed.

Lemma Qltb_lt (x y : Q) : Tensor.Qltb x y = true <-> (x < y)%Q.
Proof.
  unfold Tensor.Qltb. rewrite negb_true_iff.
  destruct (Qle_bool y x) eqn:H.
  - apply Qle_bool_iff in H. split; [discriminate|]. intros Hlt.
    exfalso. apply (Qlt_not_le _ _ Hlt). exact H.
  - split; [|reflexivity]. intros _. apply Qnot_le_lt. intros Hle.
    apply Qle_bool_iff in Hle. congruence.
Qed.

Lemma Qltb_ge (x y : Q) : Tensor.Qltb x y = false <-> (y <= x)%Q.
Proof.
  unfold Tensor.Qltb. rewrite negb_false_iff. apply Qle_bool_iff.
Qed.

(** [torch.argmax] on a row picks the arg-max class of the
    specification. *)
Lemma argmax3_spec (r : Tensor.Logits) (c : Z) :
  Tensor.argmax3 r = c <-> arg_max_class r c.
Proof.
  destruct r as [[a b] c']. unfold Tensor.argmax3, arg_max_class.
  cbn [entries]. split.
  - intros <-.
    destruct (Tensor.Qltb a b) eqn:Hab;
      [destruct (Tensor.Qltb b c') eqn:Hbc|destruct (Tensor.Qltb a c') eqn:Hac];
      rewrite ?Qltb_lt, ?Qltb_ge in *;
      (split; [lia|]); eexists; (split; [reflexivity|]);
      cbn [Z.to_nat Pos.to_nat Pos.iter_op Nat.add firstn]; split;
      repeat constructor; lra.
  - intros (Hc & x & Hx & Hmax & Hfirst).
    assert (Hcases : c = 0%Z \/ c = 1%Z \/ c = 2%Z).
    { assert (Hlt : Z.to_nat c < 3).
      { apply (nth_error_Some [a; b; c'] (Z.to_nat c)). congruence. }
      lia. }
    rewrite !Forall_cons_iff in Hmax. destruct Hmax as (Ha & Hb & Hc' & _).
    destruct Hcases as [->|[->| ->]]; vm_compute in Hx; injection Hx as <-;
      change (Z.to_nat 1) with 1 in Hfirst; change (Z.to_nat 2) with 2 in Hfirst;
      cbn [firstn] in Hfirst.
    + assert (H1 : Tensor.Qltb a b = false) by (apply Qltb_ge; exact Hb).
      assert (H2 : Tensor.Qltb a c' = false) by (apply Qltb_ge; exact Hc').
      rewrite H1, H2. reflexivity.
    + rewrite !Forall_cons_iff in Hfirst. destruct Hfirst as (Hax & _).
      assert (H1 : Tensor.Qltb a b = true) by (apply Qltb_lt; exact Hax).
      assert (H2 : Tensor.Qltb b c' = false) by (apply Qltb_ge; exact Hc').
      rewrite H1, H2. reflexivity.
    + rewrite !Forall_cons_iff in Hfirst. destruct Hfirst as (Hax & Hbx & _).
      destruct (Tensor.Qltb a b) eqn:Hab.
      * assert (H2 : Tensor.Qltb b c' = true) by (apply Qltb_lt; exact Hbx).
        rewrite H2. reflexivity.
      * assert (H2 : Tensor.Qltb a c' = true) by (apply Qltb_lt; exact Hax).
        rewrite H2. reflexivity.
Qed.

(** What the step functions count is the number of correct steps. *)
Lemma hits_correct_steps (rows : list Tensor.Logits) (labels : list Z) :
  length rows = length labels ->
  correct_steps rows labels
    (Tensor.sum (Tensor.eq (Tensor.argmax rows) labels)).
Proof.
  revert labels. induction rows as [|r rows IH]; intros [|l labels] Hlen;
    try discriminate; [constructor|].
  injection Hlen as Hlen. specialize (IH labels Hlen).
  unfold Tensor.sum, Tensor.eq, Tensor.argmax in *.
  cbn [map combine filter fst snd].
  destruct (Tensor.argmax3 r =? l)%Z eqn:Heq.
  - cbn [length]. apply correct_hit; [|exact IH].
    apply argmax3_spec. apply Z.eqb_eq. exact Heq.
  - apply correct_miss; [|exact IH].
    intros H. apply argmax3_spec in H. apply Z.eqb_neq in Heq. congruence.
Qed.

(** C7 as stated: whenever a step function returns, the accuracy lies in
    [0, 1].  It fails on a batch without time steps: the quotient of 0 by
    0.0 is nan. *)
Lemma accuracy_always_in_unit_interval_counterexample :
  ~ (forall (F : Framework) (data : list (Input F)) (target : list (list Z))
            (s : State F) (acc loss : pyfloat),
       snd (train_step data target s) = inr (acc, loss) ->
       in_unit_interval acc).
Proof.
  intros H.
  exact (H ToyState.F1 ToyEmpty.data0 ToyEmpty.target0 ToyState.s1
           NaN (Fin (inject_Z 0)) eq_refl).
Qed.

(** C7, amended: on a batch that the loss accepts (one logits row per
    label, every label a class or the ignored index) both step functions
    return as accuracy hits / total, where total is the number of flattened
    time steps and hits the number of those whose label is the arg-max
    class of their logits; with at least one time step this value lies in
    [0, 1], with none it is nan. *)
Theorem accuracy_is_fraction_in_unit_interval (F : Framework)
    (data : list (Input F)) (target : list (list Z)) (s : State F)
    (training : bool) :
  accepted training (state_dict (model s)) data target ->
  let labels := Tensor.view target in
  let rows := Tensor.view (forward F training (state_dict (model s)) data) in
  exists hits acc,
    correct_steps rows labels hits
    /\ snd ((if training then train_step data target
             else valid_step data target) s)
       = inr (acc, CrossEntropyLoss F rows labels)
    /\ (labels <> [] ->
        acc = Fin (inject_Z (Z.of_nat hits)
                   / inject_Z (Z.of_nat (length labels)))
        /\ in_unit_interval acc)
    /\ (labels = [] -> acc = NaN).
Proof.
  intros Hacc labels rows.
  pose proof Hacc as [Hal _]. unfold aligned in Hal. fold rows labels in Hal.
  apply verdict_accepted in Hacc. fold rows labels in Hacc.
  set (hits := Tensor.sum (Tensor.eq (Tensor.argmax rows) labels)).
  exists hits, (count_div hits (length labels)).
  split; [apply hits_correct_steps; exact Hal|]. split; [|split].
  - destruct training.
    + rewrite train_step_unfold. cbn zeta. fold rows labels. rewrite Hacc.
      reflexivity.
    + rewrite valid_step_unfold. cbn zeta. fold rows labels. rewrite Hacc.
      reflexivity.
  - intros Hne.
    assert (Hpos : 0 < length labels)
      by (destruct labels; [congruence|cbn; lia]).
    split.
    + destruct (length labels); [lia|reflexivity].
    + apply count_div_unit; [apply sum_eq_le|exact Hpos].
  - intros Hnil. rewrite Hnil. reflexivity.
Qed.

Lemma accuracy_is_fraction_in_unit_interval_witness :
  exists hits acc,
    correct_steps [(1, 0, 0); (0, 0, 0)]%Q [0; 1]%Z hits
    /\ snd (train_step ToyState.data1 ToyState.target1 ToyState.s1)
       = inr (acc, Fin (inject_Z 2))
    /\ ([0; 1]%Z <> [] ->
        acc = Fin (inject_Z (Z.of_nat hits) / inject_Z (Z.of_nat 2))
        /\ in_unit_interval acc)
    /\ ([0; 1]%Z = [] -> acc = NaN).
Proof.
  apply (accuracy_is_fraction_in_unit_interval ToyState.F1 ToyState.data1
           ToyState.target1 ToyState.s1 true).
  split; reflexivity.
Defined.

(* ------------------------------------------------------------------ *)
(** ** Effects of the two step functions *)

(** C3: a call of the training step on a batch that the loss accepts (one
    logits row per label, every label a class or the ignored index)
    performs exactly one optimizer update: the step counter grows by
    one and the parameters and moments are those of a single Adam update
    fed with the gradient of the current batch alone; the buffers are
    emptied before backpropagation, so whatever they held before the call
    has no influence on the outcome. *)
Theorem train_step_single_update (F : Framework) (data : list (Input F))
    (target : list (list Z)) (s : State F) :
  accepted true (state_dict (model s)) data target ->
  let o := optimizer s in
  let g := gradient F true (state_dict (model s)) data (Tensor.view target) in
  exists s' r,
    train_step data target s = (s', inr r)
    /\ step_count (optimizer s') = S (step_count o)
    /\ (moments (optimizer s'), state_dict (model s'))
       = Adam_update F (lr o) (S (step_count o)) (moments o)
           (state_dict (model s)) g
    /\ grad (model s') = Some g
    /\ forall old, train_step data target (with_grad old s) = (s', inr r).
Proof.
  intros Hal o g. apply verdict_accepted in Hal.
  exists (trained data target s).
  exists (metrics F (Tensor.view (forward F true (state_dict (model s)) data))
            (Tensor.view target)).
  assert (Hrun : forall old,
             train_step data target (with_grad old s)
             = (trained data target s, inr (metrics F
                 (Tensor.view (forward F true (state_dict (model s)) data))
                 (Tensor.view target)))).
  { intros old. rewrite train_step_unfold. cbn zeta.
    cbn [with_grad set_model model state_dict]. rewrite Hal.
    unfold trained. cbn [with_grad set_model model state_dict optimizer
      valid_acc valid_loss valid_dt trace]. reflexivity. }
  split.
  { rewrite train_step_unfold. cbn zeta. rewrite Hal. reflexivity. }
  unfold trained. fold o g.
  destruct (Adam_update F (lr o) (S (step_count o)) (moments o)
              (state_dict (model s)) g) as [mom p] eqn:Hupd.
  cbn [model optimizer step_count moments state_dict grad].
  repeat split; try reflexivity.
  intros old. rewrite Hrun. unfold trained. fold o g. rewrite Hupd.
  reflexivity.
Qed.

Lemma train_step_single_update_witness :
  exists s' r,
    train_step ToyState.data1 ToyState.target1 ToyState.s1 = (s', inr r)
    /\ step_count (optimizer s') = 1
    /\ (moments (optimizer s'), state_dict (model s')) = (tt, (-2)%Z)
    /\ grad (model s') = Some 2%Z
    /\ forall old,
         train_step ToyState.data1 ToyState.target1
           (with_grad old ToyState.s1) = (s', inr r).
Proof.
  apply (train_step_single_update ToyState.F1 ToyState.data1 ToyState.target1
           ToyState.s1).
  split; reflexivity.
Defined.

(** C4: the validation step switches the model to evaluation mode and
    changes nothing else: parameters, gradient buffers and optimizer are
    those before the call, for every batch; on a batch that the loss
    accepts (one logits row per label, every label a class or the ignored
    index) it returns the same function of logits and labels as the
    training step does, computed from the forward pass in evaluation
    mode. *)
Theorem valid_step_frame (F : Framework) (data : list (Input F))
    (target : list (list Z)) (s : State F) :
  let p := state_dict (model s) in
  let labels := Tensor.view target in
  let s' := fst (valid_step data target s) in
  (state_dict (model s') = p
   /\ grad (model s') = grad (model s)
   /\ optimizer s' = optimizer s
   /\ training (model s') = false)
  /\ (accepted false p data target ->
      snd (valid_step data target s)
      = inr (metrics F (Tensor.view (forward F false p data)) labels))
  /\ (accepted true p data target ->
      snd (train_step data target s)
      = inr (metrics F (Tensor.view (forward F true p data)) labels)).
Proof.
  intros p labels s'. subst s'. rewrite valid_step_unfold. cbn zeta.
  split; [cbn; auto|]. split; intros Hal; apply verdict_accepted in Hal.
  - cbn [snd]. fold p. rewrite Hal. reflexivity.
  - rewrite train_step_unfold. cbn zeta. fold p. rewrite Hal. reflexivity.
Qed.

Lemma valid_step_frame_witness :
  (state_dict (model (fst (valid_step ToyState.data1 ToyState.target1 ToyState.s1)))
   = 0%Z)
  /\ snd (valid_step ToyState.data1 ToyState.target1 ToyState.s1)
     = inr (metrics ToyState.F1 [(1, 0, 0); (0, 0, 0)]%Q [0; 1]%Z)
  /\ snd (train_step ToyState.data1 ToyState.target1 ToyState.s1)
     = inr (metrics ToyState.F1 [(1, 0, 0); (0, 0, 0)]%Q [0; 1]%Z).
Proof.
  destruct (valid_step_frame ToyState.F1 ToyState.data1 ToyState.target1
              ToyState.s1) as ((Hp & _) & Hv & Ht).
  split; [exact Hp|]. split.
  - apply Hv. split; reflexivity.
  - apply Ht. split; reflexivity.
Defined.

(* ------------------------------------------------------------------ *)
(** ** The command line *)

(** C9: two command lines that differ at most in the value given to
    --resume produce the same run: the same device selection, the same
    files, lines and scalars in the same order, the same parameter updates
    and the same result. *)
Theorem resume_is_ignored (F : Framework) (a b : Args) :
  gpu_idx a = gpu_idx b ->
  zarr_path a = zarr_path b ->
  ckpt_dir a = ckpt_dir b ->
  script F a = script F b.
Proof.
  destruct a as [ga za ca ra], b as [gb zb cb rb]. cbn.
  intros -> -> ->. reflexivity.
Qed.

Lemma resume_is_ignored_witness :
  script ToyState.F1 Toy.args
  = script ToyState.F1
      {| gpu_idx := "0"; zarr_path := Some "data.zarr"%string;
         ckpt_dir := "out"; resume := Some "True"%string |}.
Proof.
  apply (resume_is_ignored ToyState.F1); reflexivity.
Defined.

(* ------------------------------------------------------------------ *)
(** ** One iteration of the training loop *)

Ltac run_monad :=
  unfold bind, emit, modify, gets, ret, raise;
  cbn beta iota;
  cbn [log set_model set_valid with_training model optimizer valid_acc
       valid_loss valid_dt trace state_dict training grad fst snd negb].

Section Body.

Variable F : Framework.
Variables (ckpt_dir : string) (cfg : Config).
Variables (train_set valid_set : list (Example F)).
Variable t0 : Q.

Lemma train_body_outcome (e i : nat) (d : list (Input F))
    (t : list (list Z)) (s : State F) :
  (valid_loader F cfg valid_set (num_batch F cfg train_set * e + i) = [] ->
   valid_loss s = None) ->
  body_outcome F ckpt_dir cfg train_set valid_set t0 e i d t s
    (train_body F ckpt_dir cfg train_set valid_set t0 e (i, (d, t)) s).
Proof.
  intros Hfresh. unfold train_body. unfold bind at 1. rewrite train_step_unfold. cbn zeta.
  destruct (verdict _ _) as [x|] eqn:Hal.
  { apply outcome_train_failed; [|reflexivity|reflexivity].
    apply verdict_refused. exact Hal. }
  apply verdict_accepted in Hal.
  pose proof (trained_trace F d t s) as Htr.
  pose proof (trained_locals F d t s) as (Hl1 & Hl2 & Hl3).
  assert (Hloc : locals (trained d t s) = locals s).
  { unfold locals. congruence. }
  destruct (metrics F _ _) as [train_acc train_loss] eqn:Hm.
  set (g := num_batch F cfg train_set * e + i) in *.
  assert (Hout : forall s' r seg,
    trace s' = trace s ++ Trained e i g (state_dict (model (trained d t s))) :: seg ->
    tail F ckpt_dir cfg valid_set t0 e i g (state_dict (model (trained d t s)))
      train_acc train_loss (locals s) (locals s') r seg ->
    body_outcome F ckpt_dir cfg train_set valid_set t0 e i d t s (s', r)).
  { intros s' r seg H1 H2. eapply outcome_trained; [exact Hal|exact H1|].
    rewrite Hm. exact H2. }
  clear Hm.
  set (s1 := trained d t s) in *.
  unfold py_mod, local. run_monad.
  destruct (rnn_ckpt_step cfg =? 0)%Z eqn:Hc.
  { apply Z.eqb_eq in Hc. apply Hout with (seg := []).
    - cbn [log trace]. rewrite Htr. reflexivity.
    - unfold locals at 2. cbn [log valid_acc valid_loss valid_dt].
      fold (locals s1). rewrite Hloc. apply tail_ckpt_zero. exact Hc. }
  apply Z.eqb_neq in Hc.
  assert (Hsave : exists s2,
    (if (Z.of_nat g mod rnn_ckpt_step cfg =? 0)%Z
     then log (Save (state_dict (model s1))
                 (Path.ckpt_path ckpt_dir g e i))
            (log (Trained e i g (state_dict (model s1))) s1)
     else log (Trained e i g (state_dict (model s1))) s1) = s2
    /\ trace s2 = trace s ++ Trained e i g (state_dict (model s1))
                     :: save_part F ckpt_dir cfg e i g (state_dict (model s1))
    /\ locals s2 = locals s
    /\ state_dict (model s2) = state_dict (model s1)).
  { eexists. split; [reflexivity|]. unfold save_part, fires.
    destruct (_ =? 0)%Z; cbn [log trace]; rewrite Htr, <- ?app_assoc;
      repeat split; auto. }
  destruct Hsave as (s2 & Hs2 & Htr2 & Hloc2 & Hp2).
  destruct (Z.of_nat g mod rnn_ckpt_step cfg =? 0)%Z eqn:Hfc;
    run_monad; rewrite Hs2; clear Hs2.
  all: destruct (rnn_summary_step cfg =? 0)%Z eqn:Hs;
    [ apply Z.eqb_eq in Hs;
      eapply Hout; [exact Htr2|]; rewrite Hloc2;
      apply tail_summary_zero; assumption | ].
  all: apply Z.eqb_neq in Hs.
  all: destruct (Z.of_nat g mod rnn_summary_step cfg =? 0)%Z eqn:Hfs;
    cbn [negb];
    [ | eapply Hout; [exact Htr2|]; rewrite Hloc2;
        apply tail_quiet; assumption ].
  all: destruct (valid_loader F cfg valid_set g) as [|[vd vt] rest] eqn:Hvl;
    cbn [for_ valid_body]; run_monad.
  all: try rewrite valid_step_unfold; cbn zeta; run_monad; rewrite ?Hp2.
  all: try (destruct (verdict (Tensor.view (forward F false _ vd)) _)
              as [vx|] eqn:Hval).
  all: try (destruct (metrics F _ _) as [vacc vloss] eqn:Hvm; run_monad).
  (* no batch: valid_loss is read while unbound *)
  1,4: destruct (valid_loss s2) as [vl|] eqn:Hvl2;
    [ exfalso; specialize (Hfresh eq_refl);
      assert (Heq : valid_loss s2 = valid_loss s)
        by (unfold locals in Hloc2; congruence);
      congruence
    | eapply Hout; [exact Htr2|]; rewrite Hloc2;
      apply tail_unbound; try assumption;
      rewrite <- Hloc2; exact Hvl2 ].
  (* one batch: the validation step returns, or the loss refuses it *)
  all: try (eapply Hout;
    [ cbn [log set_valid set_model trace]; rewrite Htr2, <- ?app_assoc;
      cbn [app]; reflexivity
    | unfold locals at 2; cbn [log set_valid set_model valid_acc valid_loss
        valid_dt];
      eapply tail_report; try eassumption;
      apply verdict_accepted; exact Hval ]).
  all: eapply Hout;
    [ cbn [log set_valid set_model trace]; rewrite Htr2, <- ?app_assoc;
      cbn [app]; reflexivity
    | unfold locals at 2; cbn [log set_valid set_model valid_acc valid_loss
        valid_dt]; fold (locals s2); rewrite Hloc2;
      eapply tail_refused; try eassumption;
      apply verdict_refused; exact Hval ].
Qed.
End Body.

(* ------------------------------------------------------------------ *)
(** ** Samplers and loaders *)

Module DataFacts.

Lemma insert_at_length {A} (k : nat) (x : A) (l : list A) :
  length (Data.insert_at k x l) = S (length l).
Proof.
  revert k. induction l as [|y l IH]; intros [|k]; cbn; auto.
Qed.

Lemma randperm_length (draw : nat -> nat) (n : nat) :
  length (Data.randperm draw n) = n.
Proof.
  induction n as [|n IH]; cbn [Data.randperm]; [reflexivity|].
  rewrite insert_at_length, IH. reflexivity.
Qed.

Lemma RandomSampler_length (replacement : bool) (draw : nat -> nat) (n : nat) :
  length (Data.RandomSampler replacement draw n) = n.
Proof.
  unfold Data.RandomSampler. destruct replacement.
  - rewrite length_map, length_seq. reflexivity.
  - apply randperm_length.
Qed.

Lemma RandomSampler_bound (draw : nat -> nat) (n : nat) :
  Forall (fun i => i < n) (Data.RandomSampler true draw n).
Proof.
  unfold Data.RandomSampler. apply Forall_forall. intros i Hi.
  apply in_map_iff in Hi. destruct Hi as (j & <- & Hj).
  apply in_seq in Hj. apply Nat.mod_upper_bound. lia.
Qed.

(** The number of batches is the length reported by the loader. *)
Lemma BatchSampler_length (bs : nat) (sampler batch : list nat) :
  0 < bs -> length batch < bs ->
  length (Data.BatchSampler bs sampler batch)
  = (length batch + length sampler + bs - 1) / bs.
Proof.
  intros Hbs. revert batch.
  induction sampler as [|idx rest IH]; intros batch Hlt;
    cbn [Data.BatchSampler].
  - cbn [length]. rewrite Nat.add_0_r.
    destruct (0 <? length batch) eqn:Hb.
    + apply Nat.ltb_lt in Hb. cbn [length].
      apply Nat.div_unique with (r := length batch - 1). all: lia.
    + apply Nat.ltb_ge in Hb. cbn [length].
      apply Nat.div_unique with (r := bs - 1). all: lia.
  - rewrite length_app. cbn [length].
    destruct (length batch + 1 =? bs) eqn:Hfull.
    + apply Nat.eqb_eq in Hfull. cbn [length]. rewrite IH by (cbn; lia).
      cbn [length].
      replace (length batch + S (length rest) + bs - 1)
        with (1 * bs + (0 + length rest + bs - 1)) by lia.
      rewrite Nat.div_add_l by lia. lia.
    + apply Nat.eqb_neq in Hfull. rewrite IH by (rewrite length_app; cbn; lia).
      rewrite length_app. cbn [length]. f_equal. lia.
Qed.

(** The first batch holds the next [bs] indices, or all that are left. *)
Lemma BatchSampler_first (bs : nat) (sampler batch : list nat) :
  0 < bs -> length batch < bs -> sampler <> [] ->
  exists rest,
    Data.BatchSampler bs sampler batch
    = (batch ++ firstn (bs - length batch) sampler) :: rest.
Proof.
  intros Hbs. revert batch.
  induction sampler as [|idx tl IH]; intros batch Hlt Hne; [congruence|].
  cbn [Data.BatchSampler]. rewrite length_app. cbn [length].
  destruct (length batch + 1 =? bs) eqn:Hfull.
  - apply Nat.eqb_eq in Hfull. eexists.
    replace (bs - length batch) with 1 by lia. reflexivity.
  - apply Nat.eqb_neq in Hfull.
    destruct tl as [|idx' tl'].
    + cbn [Data.BatchSampler]. rewrite length_app. cbn [length].
      replace (0 <? length batch + 1) with true
        by (symmetry; apply Nat.ltb_lt; lia).
      exists []. destruct (bs - length batch) eqn:Hd; [lia|].
      cbn [firstn]. rewrite firstn_nil. reflexivity.
    + destruct (IH (batch ++ [idx])) as (rest & Hrest).
      * rewrite length_app. cbn. lia.
      * discriminate.
      * exists rest. rewrite Hrest. rewrite length_app. cbn [length].
        destruct (bs - length batch) eqn:Hd; [lia|].
        replace (bs - (length batch + 1)) with n by lia.
        cbn [firstn]. rewrite <- app_assoc. reflexivity.
Qed.

Lemma BatchSampler_nil (bs : nat) : Data.BatchSampler bs [] [] = [].
Proof. reflexivity. Qed.

Lemma fetch_length {A} (dataset : list A) (idxs : list nat) :
  Forall (fun i => i < length dataset) idxs ->
  length (Data.fetch dataset idxs) = length idxs.
Proof.
  induction 1 as [|i idxs Hi _ IH]; [reflexivity|].
  cbn [Data.fetch flat_map]. rewrite length_app. fold (Data.fetch dataset idxs).
  rewrite IH. destruct (nth_error dataset i) eqn:Hn; [reflexivity|].
  apply nth_error_None in Hn. lia.
Qed.

End DataFacts.

Section Loaders.

Variable F : Framework.
Variable cfg : Config.
Variables train_set valid_set : list (Example F).

Hypothesis batch_size_pos : (0 < rnn_batch_size cfg)%Z.

Lemma train_loader_length (epoch_idx : nat) :
  length (train_loader F cfg train_set epoch_idx) = num_batch F cfg train_set.
Proof.
  unfold train_loader, num_batch, Data.DataLoader, Data.len.
  rewrite length_map, DataFacts.BatchSampler_length by (cbn; lia).
  rewrite DataFacts.RandomSampler_length. reflexivity.
Qed.

Lemma valid_loader_nil (global_step : nat) :
  valid_set = [] -> valid_loader F cfg valid_set global_step = [].
Proof. intros ->. reflexivity. Qed.

(** A pass over the validation loader of a non-empty split starts with a
    batch of [batch_size] examples, or of all of them if there are fewer. *)
Lemma valid_loader_first (global_step : nat) :
  valid_set <> [] ->
  exists d t rest,
    valid_loader F cfg valid_set global_step = (d, t) :: rest
    /\ length d = Nat.min (Z.to_nat (rnn_batch_size cfg)) (length valid_set)
    /\ length t = length d.
Proof.
  intros Hne. unfold valid_loader.
  set (n := length valid_set).
  set (idxs := Data.RandomSampler true _ n).
  assert (Hn : 0 < n) by (subst n; destruct valid_set; [congruence|cbn; lia]).
  assert (Hlen : length idxs = n) by apply DataFacts.RandomSampler_length.
  destruct (DataFacts.BatchSampler_first (Z.to_nat (rnn_batch_size cfg)) idxs [])
    as (rest & Hrest).
  { lia. } { cbn. lia. } { destruct idxs; [cbn in Hlen; lia|discriminate]. }
  rewrite Hrest. cbn [Data.DataLoader map Data.collate app length].
  rewrite Nat.sub_0_r. do 3 eexists. split; [reflexivity|].
  rewrite !length_map. split; [|reflexivity].
  rewrite DataFacts.fetch_length.
  - rewrite length_firstn, Hlen. reflexivity.
  - apply Forall_forall. intros i Hi.
    assert (Hi' : In i idxs).
    { rewrite <- (firstn_skipn (Z.to_nat (rnn_batch_size cfg)) idxs).
      apply in_or_app. left. exact Hi. }
    pose proof (DataFacts.RandomSampler_bound (rand F (2 * global_step + 1)) n)
      as Hb.
    rewrite Forall_forall in Hb. apply Hb. exact Hi'.
Qed.

End Loaders.

(* ------------------------------------------------------------------ *)
(** ** Reasoning about loops *)

Section ForRule.

Context {F : Framework} {A : Type}.
Variable body : A -> M F ctl.
Variable I : nat -> State F -> Prop.
Variable E : exn -> State F -> Prop.

(** An invariant indexed by the position in the list: every execution of
    the body moves it one position forward or leaves through [E]. *)
Lemma for_indexed (xs : list A) :
  forall (k0 : nat) (s : State F),
    (forall k x s, nth_error xs k = Some x -> I (k0 + k) s ->
       match body x s with
       | (s', inr Next) => I (k0 + S k) s'
       | (s', inr Break) => False
       | (s', inl x) => E x s'
       end) ->
    I k0 s ->
    match for_ xs body s with
    | (s', inr _) => I (k0 + length xs) s'
    | (s', inl x) => E x s'
    end.
Proof.
  induction xs as [|x xs IH]; intros k0 s Hbody Hs.
  - cbn. rewrite Nat.add_0_r. exact Hs.
  - cbn [for_]. unfold bind.
    pose proof (Hbody 0 x s eq_refl) as H0. rewrite Nat.add_0_r in H0.
    specialize (H0 Hs).
    destruct (body x s) as [s1 [ex|[|]]]; [exact H0| |contradiction].
    specialize (IH (S k0) s1).
    cbn [length]. replace (k0 + S (length xs)) with (S k0 + length xs) by lia.
    apply IH.
    + intros k y s' Hk Hi.
      specialize (Hbody (S k) y s' Hk).
      replace (k0 + S k) with (S k0 + k) in Hbody by lia.
      specialize (Hbody Hi).
      replace (S k0 + S k) with (k0 + S (S k)) by lia. exact Hbody.
    + replace (S k0) with (k0 + 1) by lia. exact H0.
Qed.

End ForRule.

Lemma nth_error_enumerate {A} (xs : list A) (k : nat) (item : nat * A) :
  nth_error (enumerate xs) k = Some item ->
  fst item = k /\ k < length xs.
Proof.
  unfold enumerate. intros H.
  assert (Hk : k < length (combine (seq 0 (length xs)) xs)).
  { apply nth_error_Some. congruence. }
  rewrite length_combine, length_seq, Nat.min_id in Hk.
  split; [|exact Hk].
  destruct item as [j y]. cbn [fst].
  pose proof (nth_error_split _ _ H) as (l1 & l2 & Heq & Hlen).
  assert (Hm : nth_error (map fst (combine (seq 0 (length xs)) xs)) k = Some j).
  { rewrite nth_error_map, H. reflexivity. }
  assert (Hfst : map fst (combine (seq 0 (length xs)) xs) = seq 0 (length xs)).
  { clear. generalize 0. induction xs as [|x xs IH]; intros n; cbn; [reflexivity|].
    f_equal. apply IH. }
  rewrite Hfst in Hm. rewrite nth_error_seq in Hm.
  destruct (k <? length xs) eqn:Hlt.
  - cbn in Hm. congruence.
  - apply Nat.ltb_ge in Hlt. lia.
Qed.

Lemma nth_error_range (n : Z) (k x : nat) :
  nth_error (range n) k = Some x -> x = k /\ k < Z.to_nat n.
Proof.
  unfold range. intros H. rewrite nth_error_seq in H.
  destruct (k <? Z.to_nat n) eqn:Hlt; [|discriminate].
  apply Nat.ltb_lt in Hlt. cbn in H. split; [congruence|exact Hlt].
Qed.

Section LoopRule.

Variable F : Framework.
Variables (ckpt_dir : string) (cfg : Config).
Variables (train_set valid_set : list (Example F)).
Variable t0 : Q.

Hypothesis batch_size_pos : (0 < rnn_batch_size cfg)%Z.

(** [J e i] holds before iteration [i] of epoch [e]; [E] on leaving with
    an exception. *)
Variable J : nat -> nat -> State F -> Prop.
Variable E : exn -> State F -> Prop.

Let epochs := Z.to_nat (rnn_num_epochs cfg).
Let nb := num_batch F cfg train_set.

Hypothesis body_step :
  forall e i d t s s' r,
    e < epochs -> i < nb -> J e i s ->
    body_outcome F ckpt_dir cfg train_set valid_set t0 e i d t s (s', r) ->
    match r with
    | inr Next => J e (S i) s'
    | inr Break => False
    | inl x => E x s'
    end.

Hypothesis next_epoch : forall e s, J e nb s -> J (S e) 0 s.

Let fresh (s : State F) : Prop := valid_set = [] -> valid_loss s = None.

Lemma body_keeps_fresh e i d t s s' r :
  fresh s ->
  body_outcome F ckpt_dir cfg train_set valid_set t0 e i d t s (s', r) ->
  fresh s'.
Proof.
  intros Hf Hout Hnil. specialize (Hf Hnil).
  assert (Hsame : locals s' = locals s -> valid_loss s' = None).
  { unfold locals. intros H. congruence. }
  inversion Hout as [s'' Hna Htr Hloc | s'' r' seg Hal g p rows Htr Htail];
    [auto|].
  inversion Htail; auto.
  match goal with
  | H : valid_loader _ _ _ _ = _ :: _ |- _ =>
      rewrite (valid_loader_nil F cfg valid_set _ Hnil) in H; discriminate
  end.
Qed.

Lemma train_loop_rule (s : State F) :
  J 0 0 s -> fresh s ->
  match train_loop F ckpt_dir cfg train_set valid_set t0 s with
  | (s', inr _) => J epochs 0 s'
  | (s', inl x) => E x s'
  end.
Proof.
  intros HJ Hf. unfold train_loop.
  pose proof (for_indexed
    (fun epoch_idx =>
       (for_ (enumerate (train_loader F cfg train_set epoch_idx))
          (train_body F ckpt_dir cfg train_set valid_set t0 epoch_idx) ;;
        ret Next)%py)
    (fun e s => J e 0 s /\ fresh s) E (range (rnn_num_epochs cfg)) 0 s) as Hloop.
  cbn beta in Hloop. cbn [Nat.add] in Hloop.
  match type of Hloop with ?P -> ?Q -> ?R =>
    assert (Hb : P); [|specialize (Hloop Hb (conj HJ Hf))] end.
  2:{ destruct (for_ _ _ s) as [s' [x|u]]; [exact Hloop|].
      unfold range in Hloop. rewrite length_seq in Hloop. apply Hloop. }
  clear s HJ Hf Hloop.
  intros e x s Hx [HJ Hf]. apply nth_error_range in Hx. destruct Hx as [-> He].
  unfold bind.
  pose proof (for_indexed
    (train_body F ckpt_dir cfg train_set valid_set t0 e)
    (fun i s => J e i s /\ fresh s) E
    (enumerate (train_loader F cfg train_set e)) 0 s) as Hin.
  cbn beta in Hin. cbn [Nat.add] in Hin.
  match type of Hin with ?P -> ?Q -> ?R =>
    assert (Hb : P); [|specialize (Hin Hb (conj HJ Hf))] end.
  2:{ destruct (for_ _ _ s) as [s' [x|u]]; [exact Hin|].
      unfold enumerate in Hin.
      rewrite length_combine, length_seq, Nat.min_id in Hin.
      rewrite train_loader_length in Hin by assumption.
      cbn [ret]. destruct Hin as [HJ' Hf']. split; [|exact Hf'].
      apply next_epoch. exact HJ'. }
  clear s HJ Hf Hin.
  intros i [i' [d t]] s Hi [HJ Hf].
  apply nth_error_enumerate in Hi. cbn [fst] in Hi. destruct Hi as [-> Hi].
  rewrite train_loader_length in Hi by assumption.
  assert (Hout := train_body_outcome F ckpt_dir cfg train_set valid_set t0
                    e i d t s).
  assert (Hpre : valid_loader F cfg valid_set (num_batch F cfg train_set * e + i) = []
                 -> valid_loss s = None).
  { intros Hnil. apply Hf.
    destruct valid_set as [|ex vs] eqn:Hvs; [reflexivity|].
    destruct (valid_loader_first F cfg (ex :: vs) batch_size_pos
                (num_batch F cfg train_set * e + i)) as (d' & t' & rest & Hfirst & _).
    { discriminate. }
    congruence. }
  specialize (Hout Hpre).
  destruct (train_body F ckpt_dir cfg train_set valid_set t0 e (i, (d, t)) s)
    as [s' r].
  pose proof (body_step e i d t s s' r He Hi HJ Hout) as Hstep.
  pose proof (body_keeps_fresh e i d t s s' r Hf Hout) as Hf'.
  destruct r as [x|[|]]; auto.
Qed.

End LoopRule.

(* ------------------------------------------------------------------ *)
(** ** Whole runs *)

(** The loaders are built exactly when the batch size is positive and both
    splits have an example. *)
Lemma loaders_accepted (F : Framework) (cfg : Config)
    (train_set valid_set : list (Example F)) :
  loaders_rejected F cfg train_set valid_set = false
  <-> (0 < rnn_batch_size cfg)%Z /\ train_set <> [] /\ valid_set <> [].
Proof.
  unfold loaders_rejected. rewrite !orb_false_iff, Z.leb_gt, !Nat.eqb_neq.
  rewrite !length_zero_iff_nil. tauto.
Qed.

Section MainRule.

Variable F : Framework.
Variable args : Args.

Let cfg := config_Config F.
Let train_set := Sequences F (zarr_path args) "train".
Let valid_set := Sequences F (zarr_path args) "valid".
Let epochs := Z.to_nat (rnn_num_epochs cfg).
Let nb := num_batch F cfg train_set.

Variable J : nat -> nat -> State F -> Prop.
Variable E : exn -> State F -> Prop.

Hypothesis body_step :
  (0 < rnn_batch_size cfg)%Z -> train_set <> [] -> valid_set <> [] ->
  forall e i d t s s' r,
    e < epochs -> i < nb -> J e i s ->
    body_outcome F (ckpt_dir args) cfg train_set valid_set (time_time F 0)
      e i d t s (s', r) ->
    match r with
    | inr Next => J e (S i) s'
    | inr Break => False
    | inl x => E x s'
    end.

Hypothesis next_epoch : forall e s, J e nb s -> J (S e) 0 s.

Hypothesis at_start : J 0 0 (initial_state F args).

Lemma main_rule :
  match main F args with
  | (tr, inr s) => tr = trace s /\ J epochs 0 s
  | (tr, inl x) =>
      (x = ValueError /\ tr = created F args
       /\ loaders_rejected F cfg train_set valid_set = true)
      \/ (loaders_rejected F cfg train_set valid_set = false
          /\ exists s, tr = trace s /\ E x s)
  end.
Proof.
  unfold main. fold cfg train_set valid_set.
  destruct (loaders_rejected F cfg train_set valid_set) eqn:Hrej.
  - left. auto.
  - pose proof Hrej as Hok. apply loaders_accepted in Hok.
    destruct Hok as (Hbs & Htrain & Hvalid).
    pose proof (train_loop_rule F (ckpt_dir args) cfg train_set valid_set
                  (time_time F 0) Hbs J E (body_step Hbs Htrain Hvalid)
                  next_epoch (initial_state F args) at_start
                  (fun _ => eq_refl)) as H.
    destruct (train_loop _ _ _ _ _ _ _) as [s [x|u]].
    + right. split; [reflexivity|]. exists s. auto.
    + auto.
Qed.

End MainRule.

(** *** Projections of traces *)

Section Projections.

Variable F : Framework.
Variables (ckpt_dir : string) (cfg : Config).
Variable valid_set : list (Example F).
Variable t0 : Q.

Lemma iterations_app (a b : list (event F)) :
  iterations (a ++ b) = iterations a ++ iterations b.
Proof. apply flat_map_app. Qed.

Lemma saves_app (a b : list (event F)) : saves (a ++ b) = saves a ++ saves b.
Proof. apply flat_map_app. Qed.

Lemma draws_app (a b : list (event F)) : draws (a ++ b) = draws a ++ draws b.
Proof. apply flat_map_app. Qed.

Lemma marks_app (a b : list (event F)) : marks (a ++ b) = marks a ++ marks b.
Proof. apply flat_map_app. Qed.

Lemma created_quiet (args : Args) :
  iterations (created F args) = [] /\ saves (created F args) = []
  /\ draws (created F args) = [] /\ marks (created F args) = [].
Proof. unfold created. destruct (os_path_exists F _); cbn; auto. Qed.

Lemma save_part_quiet e i g p :
  iterations (save_part F ckpt_dir cfg e i g p) = []
  /\ draws (save_part F ckpt_dir cfg e i g p) = []
  /\ marks (save_part F ckpt_dir cfg e i g p) = []
  /\ saves (save_part F ckpt_dir cfg e i g p)
     = if fires (rnn_ckpt_step cfg) g
       then [(p, Path.ckpt_path ckpt_dir g e i)] else [].
Proof. unfold save_part. destruct (fires _ _); cbn; auto. Qed.

Lemma report_quiet e i g a l va vl :
  iterations (report F ckpt_dir cfg t0 e i g a l va vl) = []
  /\ saves (report F ckpt_dir cfg t0 e i g a l va vl) = []
  /\ draws (report F ckpt_dir cfg t0 e i g a l va vl) = []
  /\ MDraw :: marks (report F ckpt_dir cfg t0 e i g a l va vl) = logger_marks g.
Proof. cbn. auto. Qed.

(** What the part of an iteration after the training step shows under
    each projection. *)
Lemma tail_iterations e i g p a l before after r seg :
  tail F ckpt_dir cfg valid_set t0 e i g p a l before after r seg ->
  iterations seg = [].
Proof.
  destruct (save_part_quiet e i g p) as (Hi & _).
  destruct 1; rewrite ?iterations_app, ?Hi; reflexivity.
Qed.

Lemma tail_saves e i g p a l before after r seg :
  tail F ckpt_dir cfg valid_set t0 e i g p a l before after r seg ->
  rnn_ckpt_step cfg <> 0%Z ->
  saves seg = if fires (rnn_ckpt_step cfg) g
              then [(p, Path.ckpt_path ckpt_dir g e i)] else [].
Proof.
  destruct (save_part_quiet e i g p) as (_ & _ & _ & Hs).
  destruct 1; intros Hc; try contradiction;
    rewrite ?saves_app, ?Hs; cbn [saves flat_map app];
    rewrite ?app_nil_r; reflexivity.
Qed.

End Projections.

(* ------------------------------------------------------------------ *)
(** ** The global step *)

Section Numbering.

Variable F : Framework.
Variable args : Args.

Let cfg := config_Config F.
Let train_set := Sequences F (zarr_path args) "train".
Let epochs := Z.to_nat (rnn_num_epochs cfg).
Let nb := num_batch F cfg train_set.

Lemma well_numbered_snoc (its : list (nat * nat * nat * Params F))
    (e i : nat) (p : Params F) :
  well_numbered nb epochs its -> length its = nb * e + i ->
  i < nb -> e < epochs ->
  well_numbered nb epochs (its ++ [(e, i, nb * e + i, p)]).
Proof.
  intros [Hseq Hall] Hlen Hi He. split.
  - rewrite map_app, length_app, Hseq. cbn [map step_of length].
    rewrite Nat.add_1_r, seq_S, Hlen. reflexivity.
  - apply Forall_app. split; [exact Hall|]. constructor; [|constructor]. auto.
Qed.

(** The iterations of any run, complete or not, are well numbered; a run
    that ends normally has gone through all of them. *)
Lemma run_well_numbered :
  well_numbered nb epochs (iterations (fst (main F args)))
  /\ (forall s, snd (main F args) = inr s ->
      length (iterations (fst (main F args))) = nb * epochs).
Proof.
  pose proof (main_rule F args
    (fun e i s => well_numbered nb epochs (iterations (trace s))
                  /\ length (iterations (trace s)) = nb * e + i)
    (fun _ s => well_numbered nb epochs (iterations (trace s)))) as H.
  cbn beta in H. fold cfg train_set epochs nb in H.
  match type of H with ?P -> ?Q -> ?R -> _ =>
    assert (H1 : P); [|assert (H2 : Q); [|assert (H3 : R);
      [|specialize (H H1 H2 H3)]]] end.
  - intros Hbs _ _ e i d t s s' r He Hi [Hwn Hlen] Hout.
    inversion Hout as [s'' x0 Hna Htr Hloc | s'' r' seg Hal g p rows Htr Htail];
      subst s'' .
    + subst r. rewrite Htr. exact Hwn.
    + subst r'. apply tail_iterations in Htail as Hnone.
      assert (Hits : iterations (trace s')
                     = iterations (trace s) ++ [(e, i, nb * e + i, p)]).
      { rewrite Htr, iterations_app. cbn [iterations flat_map].
        fold (@iterations F seg). rewrite Hnone. reflexivity. }
      pose proof (well_numbered_snoc _ e i p Hwn Hlen Hi He) as Hwn'.
      rewrite <- Hits in Hwn'.
      inversion Htail; subst; try exact Hwn'.
      all: split; [exact Hwn'|]; rewrite Hits, length_app, Hlen; cbn; lia.
  - intros e s [Hwn Hlen]. split; [exact Hwn|]. rewrite Hlen. lia.
  - destruct (created_quiet F args) as (Hc & _).
    cbn [initial_state trace]. rewrite Hc. split; [|cbn; lia].
    split; [reflexivity|constructor].
  - destruct (main F args) as [tr [x|s]]; cbn [fst snd].
    + split; [|discriminate].
      destruct H as [(_ & -> & _)|(_ & s & -> & Hwn)]; [|exact Hwn].
      destruct (created_quiet F args) as (Hc & _). rewrite Hc.
      split; [reflexivity|constructor].
    + destruct H as (-> & Hwn & Hlen). split; [exact Hwn|].
      intros _ _. rewrite Hlen. lia.
Qed.

End Numbering.

(* ------------------------------------------------------------------ *)
(** ** Checkpoint file names *)

Module PathFacts.

Local Open Scope string_scope.

Lemma string_of_uint_digits (d : Decimal.uint) :
  all_digits (NilEmpty.string_of_uint d) = true.
Proof. induction d; cbn; auto. Qed.

Lemma str_digits (n : nat) : all_digits (Path.str n) = true.
Proof. apply string_of_uint_digits. Qed.

Lemma str_inj (n m : nat) : Path.str n = Path.str m -> n = m.
Proof.
  unfold Path.str. intros H. apply DecimalNat.Unsigned.to_uint_inj.
  assert (Hs : Some (Nat.to_uint n) = Some (Nat.to_uint m)).
  { rewrite <- !NilEmpty.usu. rewrite H. reflexivity. }
  congruence.
Qed.

Lemma str_nonempty (n : nat) : Path.str n <> "".
Proof.
  unfold Path.str. intros H.
  assert (Hs : NilEmpty.uint_of_string (NilEmpty.string_of_uint (Nat.to_uint n))
               = Some Decimal.Nil) by (rewrite H; reflexivity).
  rewrite NilEmpty.usu in Hs. injection Hs as Hs.
  assert (Hn : Nat.of_uint (Nat.to_uint n) = 0) by (rewrite Hs; reflexivity).
  rewrite DecimalNat.Unsigned.of_to in Hn. subst n. discriminate.
Qed.

(** Two digit strings followed by the same non-digit: the strings and the
    remainders agree. *)
Lemma digits_split (c : ascii) (s1 s2 r1 r2 : string) :
  is_digit c = false ->
  all_digits s1 = true -> all_digits s2 = true ->
  s1 ++ String c r1 = s2 ++ String c r2 ->
  s1 = s2 /\ r1 = r2.
Proof.
  intros Hc. revert s2.
  induction s1 as [|a s1 IH]; intros [|b s2] H1 H2 Heq; cbn in *.
  - injection Heq as Heq. auto.
  - injection Heq as Hb Heq. subst b.
    apply andb_prop in H2. destruct H2 as [H2 _]. congruence.
  - injection Heq as Ha Heq. subst a.
    apply andb_prop in H1. destruct H1 as [H1 _]. congruence.
  - injection Heq as Hab Heq. subst b.
    apply andb_prop in H1. destruct H1 as [_ H1].
    apply andb_prop in H2. destruct H2 as [_ H2].
    destruct (IH s2 H1 H2 Heq) as [-> ->]. auto.
Qed.

(** The file name determines the three numbers it is built from. *)
Lemma ckpt_name_inj (g e i g' e' i' : nat) :
  Path.ckpt_name g e i = Path.ckpt_name g' e' i' ->
  g = g' /\ e = e' /\ i = i'.
Proof.
  unfold Path.ckpt_name. intros H.
  apply digits_split in H; try apply str_digits; [|reflexivity].
  destruct H as [Hg H].
  apply digits_split in H; try apply str_digits; [|reflexivity].
  destruct H as [He H].
  change ".ckpt" with (String "." "ckpt") in H.
  apply digits_split in H; try apply str_digits; [|reflexivity].
  destruct H as [Hi _].
  auto using str_inj.
Qed.

Lemma append_inj_l (p a b : string) : p ++ a = p ++ b -> a = b.
Proof.
  induction p as [|c p IH]; cbn; intros H; [exact H|].
  injection H as H. auto.
Qed.

Lemma ckpt_name_relative (g e i : nat) :
  Path.startswith_sep (Path.ckpt_name g e i) = false.
Proof.
  unfold Path.ckpt_name.
  pose proof (str_digits g) as Hd. pose proof (str_nonempty g) as Hne.
  destruct (Path.str g) as [|c s]; [congruence|].
  cbn in *. apply andb_prop in Hd. destruct Hd as [Hd _].
  destruct (Ascii.eqb c "/") eqn:Hc; [|reflexivity].
  apply Ascii.eqb_eq in Hc. subst c. discriminate.
Qed.

(** Under a given directory, the path of a checkpoint determines the
    global step, the epoch and the batch index. *)
Lemma ckpt_path_inj (dir : string) (g e i g' e' i' : nat) :
  Path.ckpt_path dir g e i = Path.ckpt_path dir g' e' i' ->
  g = g' /\ e = e' /\ i = i'.
Proof.
  unfold Path.ckpt_path, Path.join. rewrite !ckpt_name_relative.
  intros H. apply ckpt_name_inj.
  destruct dir as [|c dir]; [exact H|].
  destruct (Path.endswith_sep (String c dir)).
  - eapply append_inj_l. exact H.
  - apply append_inj_l in H. eapply append_inj_l. exact H.
Qed.

End PathFacts.

(* ------------------------------------------------------------------ *)
(** ** Invariants of the trace *)

Section TraceInvariant.

Variable F : Framework.
Variable args : Args.

Let cfg := config_Config F.
Let train_set := Sequences F (zarr_path args) "train".
Let valid_set := Sequences F (zarr_path args) "valid".

Variable P : list (event F) -> Prop.

Hypothesis body_keeps :
  (0 < rnn_batch_size cfg)%Z -> valid_set <> [] ->
  forall e i d t s s' r,
    P (trace s) ->
    body_outcome F (ckpt_dir args) cfg train_set valid_set (time_time F 0)
      e i d t s (s', r) ->
    P (trace s').

Hypothesis at_start : P (created F args).

Lemma body_outcome_not_break e i d t s s' :
  ~ body_outcome F (ckpt_dir args) cfg train_set valid_set (time_time F 0)
      e i d t s (s', inr Break).
Proof.
  intros Hout.
  inversion Hout as [|s'' r' seg Hal g p rows Htr Htail]. inversion Htail.
Qed.

(** A property of traces that every iteration preserves, however it ends,
    holds of the trace of the run. *)
Lemma main_invariant : P (fst (main F args)).
Proof.
  pose proof (main_rule F args (fun _ _ s => P (trace s))
                (fun _ s => P (trace s))) as H.
  cbn beta in H. fold cfg train_set valid_set in H.
  match type of H with ?A -> ?B -> ?C -> _ =>
    assert (H1 : A); [|assert (H2 : B); [|assert (H3 : C);
      [|specialize (H H1 H2 H3)]]] end.
  - intros Hbs _ Hvs e i d t s s' r _ _ HP Hout.
    pose proof (body_keeps Hbs Hvs e i d t s s' r HP Hout) as HP'.
    destruct r as [x|[|]]; try exact HP'.
    exact (body_outcome_not_break _ _ _ _ _ _ Hout).
  - auto.
  - exact at_start.
  - destruct (main F args) as [tr [x|s]]; cbn [fst].
    + destruct H as [(_ & -> & _)|(_ & s & -> & HP)]; assumption.
    + destruct H as (-> & HP). exact HP.
Qed.

End TraceInvariant.

(* ------------------------------------------------------------------ *)
(** ** The checkpoint writer *)

Lemma NoDup_map_coarser {A B C} (f : A -> B) (h : A -> C) (l : list A) :
  (forall x y, In x l -> In y l -> h x = h y -> f x = f y) ->
  NoDup (map f l) -> NoDup (map h l).
Proof.
  induction l as [|a l IH]; intros Hfh Hnd; cbn in *; [constructor|].
  inversion Hnd as [|? ? Hnotin Hnd']; subst. constructor.
  - intros Hin. apply Hnotin. apply in_map_iff in Hin.
    destruct Hin as (y & Hy & Hyl). apply in_map_iff. exists y.
    split; [|exact Hyl]. apply Hfh; auto.
  - apply IH; auto.
Qed.

Lemma NoDup_map_filter {A B} (f : A -> B) (keep : A -> bool) (l : list A) :
  NoDup (map f l) -> NoDup (map f (filter keep l)).
Proof.
  induction l as [|a l IH]; intros Hnd; cbn in *; [constructor|].
  inversion Hnd as [|? ? Hnotin Hnd']; subst.
  destruct (keep a); cbn; [constructor|]; auto.
  intros Hin. apply Hnotin. apply in_map_iff in Hin.
  destruct Hin as (y & Hy & Hyl). apply filter_In in Hyl.
  apply in_map_iff. exists y. tauto.
Qed.

Section Checkpoints.

Variable F : Framework.
Variable args : Args.

Let cfg := config_Config F.

Hypothesis ckpt_step_nonzero : rnn_ckpt_step cfg <> 0%Z.

Lemma run_saves :
  saves (fst (main F args))
  = map (checkpoint_of (ckpt_dir args))
      (filter (due (rnn_ckpt_step cfg)) (iterations (fst (main F args)))).
Proof.
  apply (main_invariant F args
    (fun tr => saves tr = map (checkpoint_of (ckpt_dir args))
                 (filter (due (rnn_ckpt_step cfg)) (iterations tr)))).
  - intros Hbs Hvs e i d t s s' r HP Hout.
    inversion Hout as [s'' x0 Hna Htr Hloc | s'' r' seg Hal g p rows Htr Htail].
    + rewrite Htr. exact HP.
    + rewrite Htr, saves_app, iterations_app, filter_app, map_app, HP.
      f_equal. cbn [saves iterations flat_map app].
      fold (@saves F seg) (@iterations F seg).
      rewrite (tail_iterations _ _ _ _ _ _ _ _ _ _ _ _ _ _ _ Htail).
      rewrite (tail_saves _ _ _ _ _ _ _ _ _ _ _ _ _ _ _ Htail ckpt_step_nonzero).
      cbn [filter]. unfold due. cbn [step_of]. fold cfg.
      destruct (fires (rnn_ckpt_step cfg) g); reflexivity.
  - destruct (created_quiet F args) as (Hi & Hs & _). rewrite Hi, Hs.
    reflexivity.
Qed.

End Checkpoints.

(** C1: in every run with a non-zero checkpoint interval, the files
    written are, in order, one per iteration whose global step is a
    multiple of the interval (step 0 included) and none else; each holds
    the parameters left by the update of that iteration and is named after
    (global_step, epoch_idx, iter_idx); the names determine these triples
    and no name is used twice. *)
Theorem checkpoint_writer_exact (F : Framework) (args : Args) :
  rnn_ckpt_step (config_Config F) <> 0%Z ->
  let interval := rnn_ckpt_step (config_Config F) in
  let trace := fst (main F args) in
  saves trace
  = map (checkpoint_of (ckpt_dir args)) (filter (due interval) (iterations trace))
  /\ (forall e i p,
        In (e, i, 0, p) (iterations trace) ->
        In (p, Path.ckpt_path (ckpt_dir args) 0 e i) (saves trace))
  /\ NoDup (map snd (saves trace))
  /\ (forall g e i g' e' i',
        Path.ckpt_path (ckpt_dir args) g e i
        = Path.ckpt_path (ckpt_dir args) g' e' i' ->
        g = g' /\ e = e' /\ i = i').
Proof.
  intros Hc interval trace.
  pose proof (run_saves F args Hc) as Hs. fold interval trace in Hs.
  split; [exact Hs|]. split; [|split].
  - intros e i p Hin. rewrite Hs.
    apply in_map_iff. exists (e, i, 0, p). split; [reflexivity|].
    apply filter_In. split; [exact Hin|].
    unfold due, fires. cbn [step_of]. rewrite Z.mod_0_l by exact Hc. reflexivity.
  - rewrite Hs, map_map.
    destruct (run_well_numbered F args) as [[Hseq _] _].
    fold trace in Hseq.
    apply NoDup_map_filter.
    apply NoDup_map_coarser with (f := step_of).
    + intros [[[e i] g] p] [[[e' i'] g'] p'] _ _ Heq. cbn in *.
      apply PathFacts.ckpt_path_inj in Heq. tauto.
    + rewrite Hseq. apply seq_NoDup.
  - intros g e i g' e' i'. apply PathFacts.ckpt_path_inj.
Qed.

(** C5: in every iteration of the main loop the global step is
    num_batch * epoch_idx + iter_idx, where iter_idx stays below the number
    of batches per epoch num_batch; the global steps of the successive
    iterations of a run are 0, 1, 2, ..., so each is larger than the one
    before; a run that ends normally has made num_batch * num_epochs
    iterations. *)
Theorem global_step_numbering (F : Framework) (args : Args) :
  let cfg := config_Config F in
  let nb := num_batch F cfg (Sequences F (zarr_path args) "train") in
  let its := iterations (fst (main F args)) in
  (forall e i g p, In (e, i, g, p) its -> g = nb * e + i /\ i < nb)
  /\ map step_of its = seq 0 (length its)
  /\ (forall k a b,
        nth_error its k = Some a -> nth_error its (S k) = Some b ->
        step_of a < step_of b)
  /\ (forall s, snd (main F args) = inr s ->
        length its = nb * Z.to_nat (rnn_num_epochs cfg)).
Proof.
  intros cfg nb its.
  destruct (run_well_numbered F args) as [[Hseq Hall] Hdone].
  fold cfg nb its in Hseq, Hall, Hdone.
  split; [|split; [exact Hseq|split; [|exact Hdone]]].
  - intros e i g p Hin. rewrite Forall_forall in Hall.
    specialize (Hall _ Hin). cbn in Hall. tauto.
  - intros k a b Ha Hb.
    assert (Hka : nth_error (map step_of its) k = Some (step_of a))
      by (rewrite nth_error_map, Ha; reflexivity).
    assert (Hkb : nth_error (map step_of its) (S k) = Some (step_of b))
      by (rewrite nth_error_map, Hb; reflexivity).
    rewrite Hseq, nth_error_seq in Hka, Hkb.
    destruct (k <? length its); [|discriminate].
    destruct (S k <? length its); [|discriminate].
    cbn in Hka, Hkb. injection Hka as <-. injection Hkb as <-. lia.
Qed.

Lemma global_step_numbering_witness :
  map step_of (iterations (fst (main ToyRun.F2 Toy.args))) = [0; 1; 2; 3].
Proof.
  destruct (global_step_numbering ToyRun.F2 Toy.args) as (_ & Hseq & _).
  rewrite Hseq. reflexivity.
Defined.

Lemma checkpoint_writer_exact_witness :
  rnn_ckpt_step (config_Config ToyRun.F2) <> 0%Z
  /\ map snd (saves (fst (main ToyRun.F2 Toy.args)))
     = ["out/0_0-0.ckpt"; "out/2_1-0.ckpt"]%string
  /\ NoDup (map snd (saves (fst (main ToyRun.F2 Toy.args)))).
Proof.
  assert (Hc : rnn_ckpt_step (config_Config ToyRun.F2) <> 0%Z) by discriminate.
  destruct (checkpoint_writer_exact ToyRun.F2 Toy.args Hc) as (Hs & _ & Hnd & _).
  split; [exact Hc|]. split; [|exact Hnd].
  rewrite Hs. reflexivity.
Defined.

(* ------------------------------------------------------------------ *)
(** ** The metric logger *)

Section LoggerTail.

Variable F : Framework.
Variables (ckpt_dir : string) (cfg : Config).
Variable valid_set : list (Example F).
Variable t0 : Q.

Hypothesis ckpt_step_nonzero : rnn_ckpt_step cfg <> 0%Z.
Hypothesis summary_step_nonzero : rnn_summary_step cfg <> 0%Z.

Lemma tail_draws e i g p a l before after r seg :
  tail F ckpt_dir cfg valid_set t0 e i g p a l before after r seg ->
  draws seg = if fires (rnn_summary_step cfg) g
              then firstn 1 (valid_loader F cfg valid_set g) else [].
Proof.
  destruct (save_part_quiet F ckpt_dir cfg e i g p) as (_ & Hd & _).
  destruct 1; try contradiction;
    repeat match goal with
           | H : fires _ _ = _ |- _ => rewrite H
           | H : valid_loader _ _ _ _ = _ |- _ => rewrite H
           end;
    rewrite ?draws_app, ?Hd; reflexivity.
Qed.

Lemma tail_marks e i g p a l before after r seg :
  tail F ckpt_dir cfg valid_set t0 e i g p a l before after r seg ->
  valid_loader F cfg valid_set g <> [] ->
  (forall d t rest, valid_loader F cfg valid_set g = (d, t) :: rest ->
                    accepted false p d t) ->
  marks seg = if fires (rnn_summary_step cfg) g then logger_marks g else [].
Proof.
  destruct (save_part_quiet F ckpt_dir cfg e i g p) as (_ & _ & Hm & _).
  destruct 1; intros Hne Hal; try contradiction;
    repeat match goal with
           | H : fires _ _ = _ |- _ => rewrite H
           end;
    rewrite ?marks_app, ?Hm; try reflexivity.
  exfalso. eapply refused_not_accepted; eauto.
Qed.

End LoggerTail.

Section Logger.

Variable F : Framework.
Variable args : Args.

Let cfg := config_Config F.
Let valid_set := Sequences F (zarr_path args) "valid".

Hypothesis ckpt_step_nonzero : rnn_ckpt_step cfg <> 0%Z.
Hypothesis summary_step_nonzero : rnn_summary_step cfg <> 0%Z.

Lemma run_draws :
  draws (fst (main F args))
  = flat_map (fun it => if due (rnn_summary_step cfg) it
                        then firstn 1 (valid_loader F cfg valid_set (step_of it))
                        else [])
      (iterations (fst (main F args))).
Proof.
  apply (main_invariant F args
    (fun tr => draws tr
               = flat_map (fun it => if due (rnn_summary_step cfg) it
                   then firstn 1 (valid_loader F cfg valid_set (step_of it))
                   else []) (iterations tr))).
  - intros Hbs Hvs e i d t s s' r HP Hout.
    inversion Hout as [s'' x0 Hna Htr Hloc | s'' r' seg Hal g p rows Htr Htail].
    + rewrite Htr. exact HP.
    + rewrite Htr, draws_app, iterations_app, flat_map_app, HP.
      f_equal. cbn [draws iterations flat_map app].
      fold (@draws F seg) (@iterations F seg).
      rewrite (tail_iterations _ _ _ _ _ _ _ _ _ _ _ _ _ _ _ Htail).
      rewrite (tail_draws F _ _ _ _ ckpt_step_nonzero summary_step_nonzero
                 _ _ _ _ _ _ _ _ _ _ Htail).
      cbn [flat_map]. rewrite app_nil_r. reflexivity.
  - destruct (created_quiet F args) as (Hi & _ & Hd & _). rewrite Hi, Hd.
    reflexivity.
Qed.

Hypothesis valid_accepted :
  forall p g d t rest,
    valid_loader F cfg valid_set g = (d, t) :: rest -> accepted false p d t.

Lemma run_marks :
  marks (fst (main F args))
  = flat_map (fun it => iteration_marks (rnn_summary_step cfg) (step_of it))
      (iterations (fst (main F args))).
Proof.
  apply (main_invariant F args
    (fun tr => marks tr
               = flat_map (fun it => iteration_marks (rnn_summary_step cfg)
                                       (step_of it)) (iterations tr))).
  - intros Hbs Hvs e i d t s s' r HP Hout.
    inversion Hout as [s'' x0 Hna Htr Hloc | s'' r' seg Hal g p rows Htr Htail].
    + rewrite Htr. exact HP.
    + rewrite Htr, marks_app, iterations_app, flat_map_app, HP.
      f_equal. cbn [marks iterations flat_map app].
      fold (@marks F seg) (@iterations F seg).
      rewrite (tail_iterations _ _ _ _ _ _ _ _ _ _ _ _ _ _ _ Htail).
      rewrite (tail_marks F _ _ _ _ ckpt_step_nonzero summary_step_nonzero
                 _ _ _ _ _ _ _ _ _ _ Htail).
      * cbn [flat_map step_of]. rewrite app_nil_r. reflexivity.
      * destruct (valid_loader_first F cfg valid_set Hbs g Hvs)
          as (d' & t' & rest & Hfirst & _).
        fold cfg valid_set. rewrite Hfirst. discriminate.
      * intros d' t' rest Hfirst. eapply valid_accepted. exact Hfirst.
  - destruct (created_quiet F args) as (Hi & _ & _ & Hm). rewrite Hi, Hm.
    reflexivity.
Qed.

End Logger.

(** C2: in every run with non-zero intervals whose validation batches the
    loss accepts (one logits row per label, every label a class or the
    ignored index), the metric logger acts in exactly those iterations
    whose global step is a multiple of the summary interval; each time it
    draws exactly one validation batch, then prints two lines, then appends
    the scalar groups loss, seq_acc and dt_sec, all three keyed by the
    global step. *)
Theorem metric_logger_exact (F : Framework) (args : Args) :
  let cfg := config_Config F in
  let valid_set := Sequences F (zarr_path args) "valid" in
  rnn_ckpt_step cfg <> 0%Z ->
  rnn_summary_step cfg <> 0%Z ->
  (forall p g d t rest,
     valid_loader F cfg valid_set g = (d, t) :: rest -> accepted false p d t) ->
  marks (fst (main F args))
  = flat_map (fun it => iteration_marks (rnn_summary_step cfg) (step_of it))
      (iterations (fst (main F args)))
  /\ (forall g, fires (rnn_summary_step cfg) g = true ->
        iteration_marks (rnn_summary_step cfg) g
        = [MIteration g; MDraw; MPrint; MPrint;
           MScalars "loss" ["train_loss"; "valid_loss"]%string g;
           MScalars "seq_acc" ["train_acc"; "valid_acc"]%string g;
           MScalars "dt_sec" ["train_dt"; "valid_dt"]%string g])
  /\ (forall g, fires (rnn_summary_step cfg) g = false ->
        iteration_marks (rnn_summary_step cfg) g = [MIteration g]).
Proof.
  intros cfg valid_set Hc Hs Hal. split; [|split].
  - apply run_marks; assumption.
  - intros g Hg. unfold iteration_marks. rewrite Hg. reflexivity.
  - intros g Hg. unfold iteration_marks. rewrite Hg. reflexivity.
Qed.

(* ------------------------------------------------------------------ *)
(** ** The loss accepts the batches of the toy framework *)

Module ToyFacts.

Lemma fetch_In {A} (dataset : list A) (idxs : list nat) (x : A) :
  In x (Data.fetch dataset idxs) -> In x dataset.
Proof.
  unfold Data.fetch. intros H. apply in_flat_map in H.
  destruct H as (i & _ & Hi).
  destruct (nth_error dataset i) eqn:Hn; [|contradiction].
  destruct Hi as [<-|[]]. eapply nth_error_In. exact Hn.
Qed.

Lemma balanced_batch (p : Z) (batch : list (list Q * list Z)) :
  Forall (fun ex => length (fst ex) = length (snd ex)) batch ->
  length (concat (map (map (Toy.score p)) (map fst batch)))
  = length (concat (map snd batch)).
Proof.
  induction 1 as [|ex batch Hex _ IH]; [reflexivity|].
  cbn [map concat]. rewrite !length_app, length_map, Hex, IH. reflexivity.
Qed.

Lemma labelled_batch (batch : list (list Q * list Z)) :
  Forall (fun ex => forallb Tensor.label_ok (snd ex) = true) batch ->
  forallb Tensor.label_ok (concat (map snd batch)) = true.
Proof.
  induction 1 as [|ex batch Hex _ IH]; [reflexivity|].
  cbn [map concat]. rewrite forallb_app, Hex, IH. reflexivity.
Qed.

Lemma fetched_accepted (cfg : Config) (train valid : list (list Q * list Z))
    (dataset : list (list Q * list Z)) (idxs : list nat) (training : bool)
    (p : Z) :
  Forall well_formed dataset ->
  @accepted (Toy.framework cfg train valid) training p
    (map fst (Data.fetch dataset idxs)) (map snd (Data.fetch dataset idxs)).
Proof.
  intros Hwf.
  assert (Hall : Forall well_formed (Data.fetch dataset idxs)).
  { apply Forall_forall. intros ex Hex. apply fetch_In in Hex.
    rewrite Forall_forall in Hwf. auto. }
  split.
  - unfold aligned, Tensor.view. cbn [forward Toy.framework].
    apply balanced_batch. eapply Forall_impl; [|exact Hall].
    intros ex [H _]. exact H.
  - unfold in_range, Tensor.view. apply labelled_batch.
    eapply Forall_impl; [|exact Hall]. intros ex [_ H]. exact H.
Qed.

Lemma toy_valid_accepted (cfg : Config) (train valid : list (list Q * list Z)) :
  Forall well_formed valid ->
  forall p g d t rest,
    valid_loader (Toy.framework cfg train valid) cfg valid g = (d, t) :: rest ->
    @accepted (Toy.framework cfg train valid) false p d t.
Proof.
  intros Hwf p g d t rest Hfirst.
  assert (Hin : In (d, t) (valid_loader (Toy.framework cfg train valid) cfg valid g))
    by (rewrite Hfirst; left; reflexivity).
  unfold valid_loader, Data.DataLoader in Hin. apply in_map_iff in Hin.
  destruct Hin as (idxs & Heq & _). unfold Data.collate in Heq.
  injection Heq as <- <-.
  apply fetched_accepted. exact Hwf.
Qed.


Lemma split4_well_formed : Forall well_formed Toy.split4.
Proof. repeat constructor. Qed.

End ToyFacts.

Lemma metric_logger_exact_witness :
  marks (fst (main ToyRun.F2 Toy.args))
  = [MIteration 0; MDraw; MPrint; MPrint;
     MScalars "loss" ["train_loss"; "valid_loss"]%string 0;
     MScalars "seq_acc" ["train_acc"; "valid_acc"]%string 0;
     MScalars "dt_sec" ["train_dt"; "valid_dt"]%string 0;
     MIteration 1; MIteration 2;
     MIteration 3; MDraw; MPrint; MPrint;
     MScalars "loss" ["train_loss"; "valid_loss"]%string 3;
     MScalars "seq_acc" ["train_acc"; "valid_acc"]%string 3;
     MScalars "dt_sec" ["train_dt"; "valid_dt"]%string 3].
Proof.
  destruct (metric_logger_exact ToyRun.F2 Toy.args) as (Hm & _).
  - discriminate.
  - discriminate.
  - apply ToyFacts.toy_valid_accepted. exact ToyFacts.split4_well_formed.
  - rewrite Hm. reflexivity.
Defined.

(* ------------------------------------------------------------------ *)
(** ** The size of the validation batches *)

(** C8 as stated: with summary interval 1 and at least four validation
    examples, every validation batch drawn has size 4.  It fails: the
    validation loader is built with the batch size of the training
    loader. *)
Lemma validation_batch_of_four_counterexample :
  ~ (forall (F : Framework) (args : Args),
       rnn_summary_step (config_Config F) = 1%Z ->
       4 <= length (Sequences F (zarr_path args) "valid") ->
       Forall (fun b => length (fst b) = 4) (draws (fst (main F args)))).
Proof.
  intros H. specialize (H ToyRun.F3 Toy.args eq_refl (Nat.le_refl 4)).
  vm_compute in H. inversion H as [|b l Hb Hl]. discriminate.
Qed.

(** C8, amended: with summary interval 1, a non-zero checkpoint interval
    and at least four validation examples, exactly one validation batch is
    drawn per iteration, and its size is the smaller of batch_size (the one
    used for training) and the size of the validation split. *)
Theorem validation_batch_size (F : Framework) (args : Args) :
  let cfg := config_Config F in
  let valid_set := Sequences F (zarr_path args) "valid" in
  rnn_summary_step cfg = 1%Z ->
  rnn_ckpt_step cfg <> 0%Z ->
  4 <= length valid_set ->
  length (draws (fst (main F args))) = length (iterations (fst (main F args)))
  /\ Forall (fun b => length (fst b)
                      = Nat.min (Z.to_nat (rnn_batch_size cfg)) (length valid_set))
       (draws (fst (main F args))).
Proof.
  intros cfg valid_set Hs Hc Hlen.
  assert (Hs0 : rnn_summary_step cfg <> 0%Z) by (rewrite Hs; discriminate).
  pose proof (run_draws F args Hc Hs0) as Hd. fold cfg valid_set in Hd.
  assert (Hne : valid_set <> []) by (destruct valid_set; [cbn in Hlen; lia|discriminate]).
  destruct (iterations (fst (main F args))) as [|it its] eqn:Hits.
  { rewrite Hd. cbn. split; [reflexivity|constructor]. }
  assert (Hbs : (0 < rnn_batch_size cfg)%Z).
  { unfold main in Hits. fold cfg in Hits.
    destruct (loaders_rejected F cfg _ _) eqn:Hb;
      [|apply loaders_accepted in Hb; tauto].
    cbn [fst] in Hits. destruct (created_quiet F args) as (Hi & _).
    rewrite Hi in Hits. discriminate. }
  rewrite Hd. clear Hd Hits.
  induction (it :: its) as [|x l IH]; [split; [reflexivity|constructor]|].
  destruct IH as [IHlen IHall]. cbn [flat_map].
  assert (Hdue : due (rnn_summary_step cfg) x = true).
  { unfold due, fires. rewrite Hs, Z.mod_1_r. reflexivity. }
  rewrite Hdue.
  destruct (valid_loader_first F cfg valid_set Hbs (step_of x) Hne)
    as (d & t & rest & Hfirst & Hsize & _).
  rewrite Hfirst. change (firstn 1 ((d, t) :: rest)) with [(d, t)].
  cbn [app]. split.
  - cbn [length]. f_equal. exact IHlen.
  - constructor; [exact Hsize|exact IHall].
Qed.

Lemma validation_batch_size_witness :
  length (draws (fst (main ToyRun.F3 Toy.args))) = 2
  /\ Forall (fun b => length (fst b) = 2) (draws (fst (main ToyRun.F3 Toy.args))).
Proof.
  apply (validation_batch_size ToyRun.F3 Toy.args).
  - reflexivity.
  - discriminate.
  - apply Nat.le_refl.
Defined.
(* ------------------------------------------------------------------ *)
(** ** Validation locals that were never assigned *)

Section Unbound.

Variable F : Framework.
Variable args : Args.

Let cfg := config_Config F.
Let train_set := Sequences F (zarr_path args) "train".
Let valid_set := Sequences F (zarr_path args) "valid".




End Unbound.



(* ------------------------------------------------------------------ *)
(** ** The timing error *)

Section TimingInLog.

Variable F : Framework.
Variable args : Args.

Let cfg := config_Config F.

Lemma scalars_app (a b : list (event F)) :
  scalars (a ++ b) = scalars a ++ scalars b.
Proof. apply flat_map_app. Qed.

Lemma tail_scalars dir valid_set t0 e i g p a l before after r seg :
  tail F dir cfg valid_set t0 e i g p a l before after r seg ->
  scalars seg = []
  \/ exists va vl,
       scalars seg
       = scalar_groups (num_steps cfg) (step_stride cfg) (g, a, l, va, vl).
Proof.
  assert (Hs : scalars (save_part F dir cfg e i g p) = []).
  { unfold save_part. destruct (fires _ _); reflexivity. }
  destruct 1; rewrite ?scalars_app, ?Hs; try (left; reflexivity).
  right. exists vacc, vloss. reflexivity.
Qed.

(** Every group of scalars in the log of a run belongs to a logging event
    whose dt_sec entries are [timing_error] of the accuracies that the same
    event logs, times 100, under seq_acc. *)
Lemma run_scalars :
  exists rows,
    scalars (fst (main F args))
    = flat_map (scalar_groups (num_steps cfg) (step_stride cfg)) rows.
Proof.
  apply (main_invariant F args
    (fun tr => exists rows,
       scalars tr
       = flat_map (scalar_groups (num_steps cfg) (step_stride cfg)) rows)).
  - intros Hbs Hvs e i d t s s' r [rows HP] Hout.
    inversion Hout as [s'' x0 Hna Htr Hloc | s'' r' seg Hal g p rs Htr Htail].
    + exists rows. rewrite Htr. exact HP.
    + rewrite Htr, scalars_app, HP. cbn [scalars flat_map app].
      fold (@scalars F seg).
      destruct (tail_scalars _ _ _ _ _ _ _ _ _ _ _ _ _ Htail)
        as [Hnone|(va & vl & Hsome)].
      * exists rows. rewrite Hnone, app_nil_r. reflexivity.
      * eexists (rows ++ [_]). rewrite Hsome, flat_map_app.
        cbn [flat_map]. rewrite app_nil_r. reflexivity.
  - exists []. unfold created. destruct (os_path_exists F _); reflexivity.
Qed.

End TimingInLog.

(** C6: the timing error logged for the training side and for the
    validation side is [timing_error] of the respective accuracy, which is
    num_steps * (1 - accuracy) * step_stride / 2; for non-negative
    num_steps and step_stride and an accuracy in [0, 1] it is
    non-negative, it does not increase when the accuracy increases, and it
    strictly decreases when num_steps and step_stride are positive. *)
Theorem timing_error_nonneg_decreasing (F : Framework) (args : Args) :
  let ns := num_steps (config_Config F) in
  let ss := step_stride (config_Config F) in
  let dt := fun a : Q => (ns * (1 - a) * ss / 2)%Q in
  (exists rows,
     scalars (fst (main F args)) = flat_map (scalar_groups ns ss) rows)
  /\ (forall a, timing_error ns ss (Fin a) = Fin (dt a))
  /\ ((0 <= ns)%Q -> (0 <= ss)%Q ->
      (forall a, (0 <= a)%Q -> (a <= 1)%Q -> (0 <= dt a)%Q)
      /\ (forall a b, (a <= b)%Q -> (dt b <= dt a)%Q))
  /\ ((0 < ns)%Q -> (0 < ss)%Q ->
      forall a b, (a < b)%Q -> (dt b < dt a)%Q).
Proof.
  intros ns ss dt. subst dt. cbn beta.
  split; [apply run_scalars|]. split; [reflexivity|]. split.
  - intros Hns Hss. split.
    + intros a Ha0 Ha1. apply Qle_shift_div_l; [reflexivity|].
      rewrite Qmult_0_l. apply Qmult_le_0_compat; [|assumption].
      apply Qmult_le_0_compat; [assumption|lra].
    + intros a b Hab. apply Qmult_le_compat_r; [|discriminate].
      apply Qmult_le_compat_r; [|assumption].
      rewrite !(Qmult_comm ns). apply Qmult_le_compat_r; [lra|assumption].
  - intros Hns Hss a b Hab. apply Qmult_lt_compat_r; [reflexivity|].
    apply Qmult_lt_compat_r; [assumption|].
    rewrite !(Qmult_comm ns). apply Qmult_lt_compat_r; [assumption|lra].
Qed.

Lemma timing_error_nonneg_decreasing_witness :
  (0 <= 8)%Q /\ (0 < 1 # 2)%Q
  /\ timing_error 8 (1 # 2) (Fin (3 # 4)) = Fin (8 * (1 - (3 # 4)) * (1 # 2) / 2)
  /\ (0 <= 8 * (1 - (3 # 4)) * (1 # 2) / 2)%Q
  /\ (8 * (1 - (3 # 4)) * (1 # 2) / 2 < 8 * (1 - (1 # 4)) * (1 # 2) / 2)%Q.
Proof.
  assert (H8 : (0 <= 8)%Q) by discriminate.
  assert (Hs : (0 <= 1 # 2)%Q) by discriminate.
  assert (H8' : (0 < 8)%Q) by reflexivity.
  assert (Hs' : (0 < 1 # 2)%Q) by reflexivity.
  destruct (timing_error_nonneg_decreasing ToyRun.F2 Toy.args)
    as (_ & Hval & Hpos & Hdec).
  split; [exact H8|]. split; [exact Hs'|]. split; [apply Hval|].
  split.
  - apply (proj1 (Hpos H8 Hs)); discriminate.
  - apply (Hdec H8' Hs'). reflexivity.
Defined.

(* ------------------------------------------------------------------ *)
(** ** Only the training step changes the weights *)

Section Frame.

Variable F : Framework.

Lemma keeps_ret {A} (a : A) : keeps_weights (@ret F A a).
Proof. intros s. reflexivity. Qed.

Lemma keeps_raise {A} (e : exn) : keeps_weights (@raise F A e).
Proof. intros s. reflexivity. Qed.

Lemma keeps_gets {A} (f : State F -> A) : keeps_weights (gets f).
Proof. intros s. reflexivity. Qed.

Lemma keeps_emit (ev : event F) : keeps_weights (emit ev).
Proof. intros s. reflexivity. Qed.

Lemma keeps_set_valid (a l dt : pyfloat) :
  keeps_weights (@modify F (set_valid a l dt)).
Proof. intros s. reflexivity. Qed.

Lemma keeps_bind {A B} (c : M F A) (k : A -> M F B) :
  keeps_weights c -> (forall a, keeps_weights (k a)) ->
  keeps_weights (bind c k).
Proof.
  intros Hc Hk s. unfold bind. specialize (Hc s).
  destruct (c s) as [s1 [x|a]]; cbn [fst] in *; [exact Hc|].
  rewrite Hk. exact Hc.
Qed.

Lemma keeps_py_mod (a b : Z) : keeps_weights (@py_mod F a b).
Proof. unfold py_mod. destruct (b =? 0)%Z; [apply keeps_raise|apply keeps_ret]. Qed.

Lemma keeps_local (name : string) (get : State F -> option pyfloat) :
  keeps_weights (local F name get).
Proof.
  unfold local. apply keeps_bind; [apply keeps_gets|].
  intros [x|]; [apply keeps_ret|apply keeps_raise].
Qed.

Lemma keeps_valid_step (d : list (Input F)) (t : list (list Z)) :
  keeps_weights (valid_step d t).
Proof. intros s. rewrite valid_step_unfold. reflexivity. Qed.

Lemma keeps_for {A} (xs : list A) (body : A -> M F ctl) :
  (forall x, keeps_weights (body x)) -> keeps_weights (for_ xs body).
Proof.
  intros Hb. induction xs as [|x xs IH]; cbn [for_]; [apply keeps_ret|].
  apply keeps_bind; [apply Hb|]. intros [|]; [exact IH|apply keeps_ret].
Qed.

Lemma never_breaks_bind {A} (c : M F A) (k : A -> M F ctl) :
  (forall a, never_breaks (k a)) -> never_breaks (bind c k).
Proof.
  intros Hk s. unfold bind. destruct (c s) as [s1 [x|a]]; [discriminate|].
  apply Hk.
Qed.

End Frame.

Ltac frame :=
  repeat first
    [ apply keeps_ret | apply keeps_raise | apply keeps_gets
    | apply keeps_emit | apply keeps_set_valid | apply keeps_py_mod
    | apply keeps_local | apply keeps_valid_step
    | apply keeps_for; intros [? ?]
    | apply keeps_bind; [|intros]
    | match goal with
      | |- keeps_weights (if ?b then _ else _) => destruct b
      | |- keeps_weights (let (_, _) := ?x in _) => destruct x
      | |- keeps_weights (match ?x with _ => _ end) => destruct x
      end ].

Section BodyFrame.

Variable F : Framework.
Variables (ckpt_dir : string) (cfg : Config).
Variables (train_set valid_set : list (Example F)).
Variable t0 : Q.

Lemma valid_body_keeps (batch : list (Input F) * list (list Z)) :
  keeps_weights (valid_body F cfg batch).
Proof. destruct batch as [d t]. unfold valid_body. frame. Qed.

Lemma train_body_never_breaks (e : nat)
    (item : nat * (list (Input F) * list (list Z))) :
  never_breaks (train_body F ckpt_dir cfg train_set valid_set t0 e item).
Proof.
  destruct item as [i [d t]]. unfold train_body.
  repeat first
    [ apply never_breaks_bind; intros
    | match goal with
      | |- never_breaks (if ?b then _ else _) => destruct b
      | |- never_breaks (let (_, _) := ?x in _) => destruct x
      end ].
  all: intros s; discriminate.
Qed.

End BodyFrame.

Section IterationWeights.

Variable F : Framework.
Variables (ckpt_dir : string) (cfg : Config).
Variables (train_set valid_set : list (Example F)).
Variable t0 : Q.

Lemma train_body_weights (e i : nat) (d : list (Input F))
    (t : list (list Z)) (s : State F) :
  weights (fst (train_body F ckpt_dir cfg train_set valid_set t0 e
                  (i, (d, t)) s))
  = weights (fst (train_step d t s)).
Proof.
  unfold train_body. unfold bind at 1.
  destruct (train_step d t s) as [s1 [x|[acc loss]]]; cbn [fst];
    [reflexivity|].
  match goal with
  | |- weights (fst (?c s1)) = _ =>
      assert (H : keeps_weights c); [|apply H]
  end.
  frame; try apply valid_body_keeps.
Qed.

Lemma weights_trained (d : list (Input F)) (t : list (list Z))
    (s s' : State F) :
  weights s = weights s' -> weights (trained d t s) = weights (trained d t s').
Proof.
  unfold weights, trained. intros H. injection H as Hp Hg Ho.
  rewrite Hp, Ho.
  destruct (Adam_update F _ _ _ _ _). reflexivity.
Qed.

Lemma train_body_refused (e i : nat) (d : list (Input F))
    (t : list (list Z)) (s : State F) (x : exn) :
  refused true (state_dict (model s)) d t x ->
  train_body F ckpt_dir cfg train_set valid_set t0 e (i, (d, t)) s
  = (set_model (with_training F true (model s)) s, inl x).
Proof.
  intros Hr. apply verdict_refused in Hr.
  unfold train_body. unfold bind at 1. rewrite train_step_unfold.
  cbn zeta. rewrite Hr. reflexivity.
Qed.

End IterationWeights.

(** X1: whatever an iteration of the training loop does after its
    training step (checkpoint, validation, printing, logging, or an
    exception among them), parameters, gradient buffers and optimizer are
    left as the training step left them: updated once on a batch that the
    loss accepts (one logits row per label, every label a class or the
    ignored index), untouched on a batch that the loss refuses, where the
    iteration ends with the exception of the loss and adds nothing to the
    trace. *)
Theorem iteration_changes_weights_only_by_training (F : Framework)
    (ckpt_dir : string) (cfg : Config) (train_set valid_set : list (Example F))
    (t0 : Q) (e i : nat) (d : list (Input F)) (t : list (list Z))
    (s : State F) :
  let s' := fst (train_body F ckpt_dir cfg train_set valid_set t0 e
                   (i, (d, t)) s) in
  (accepted true (state_dict (model s)) d t ->
   weights s' = weights (trained d t s))
  /\ (forall x, refused true (state_dict (model s)) d t x ->
      weights s' = weights s
      /\ snd (train_body F ckpt_dir cfg train_set valid_set t0 e
                (i, (d, t)) s) = inl x
      /\ trace s' = trace s).
Proof.
  intros s'. subst s'. split.
  - intros Hal. rewrite train_body_weights, train_step_unfold. cbn zeta.
    apply verdict_accepted in Hal. rewrite Hal. reflexivity.
  - intros x Hr.
    rewrite (train_body_refused F ckpt_dir cfg train_set valid_set t0
               e i d t s x Hr).
    repeat split; reflexivity.
Qed.

Lemma iteration_changes_weights_only_by_training_witness :
  weights (fst (train_body ToyRun.F3 "out" (config_Config ToyRun.F3)
                  Toy.split3 Toy.split4 0 0
                  (0, (ToyState.data1, ToyState.target1)) ToyState.s1))
  = weights (trained ToyState.data1 ToyState.target1 ToyState.s1)
  /\ snd (train_body ToyRun.F3 "out" (config_Config ToyRun.F3)
            Toy.split3 Toy.split4 0 0
            (0, (ToyLabels.data3, ToyLabels.target3)) ToyState.s1)
     = inl IndexError.
Proof.
  split.
  - apply (iteration_changes_weights_only_by_training ToyRun.F3 "out"
             (config_Config ToyRun.F3) Toy.split3 Toy.split4 0 0 0
             ToyState.data1 ToyState.target1 ToyState.s1).
    split; reflexivity.
  - destruct (iteration_changes_weights_only_by_training ToyRun.F3 "out"
                (config_Config ToyRun.F3) Toy.split3 Toy.split4 0 0 0
                ToyLabels.data3 ToyLabels.target3 ToyState.s1)
      as [_ Hrefused].
    apply (Hrefused IndexError). right.
    split; [reflexivity|split; [discriminate|reflexivity]].
Defined.

(* ------------------------------------------------------------------ *)
(** ** The weights at the end of a run *)

Lemma nth_error_enumerate_item {A} (xs : list A) (k : nat) (item : nat * A) :
  nth_error (enumerate xs) k = Some item ->
  fst item = k /\ nth_error xs k = Some (snd item).
Proof.
  intros H. split; [apply (nth_error_enumerate xs k item H)|].
  unfold enumerate in H.
  assert (Hm : nth_error (map snd (combine (seq 0 (length xs)) xs)) k
               = Some (snd item))
    by (rewrite nth_error_map, H; reflexivity).
  assert (Hsnd : map snd (combine (seq 0 (length xs)) xs) = xs).
  { clear. generalize 0. induction xs as [|x xs IH]; intros n; cbn;
      [reflexivity|]. f_equal. apply IH. }
  rewrite Hsnd in Hm. exact Hm.
Qed.

Lemma firstn_succ_nth {A} (xs : list A) (k : nat) (x : A) :
  nth_error xs k = Some x -> firstn (S k) xs = firstn k xs ++ [x].
Proof.
  revert k. induction xs as [|y xs IH]; intros [|k] H; cbn in *;
    try discriminate.
  - congruence.
  - f_equal. apply IH. exact H.
Qed.

Section RunWeights.

Variable F : Framework.
Variables (ckpt_dir : string) (cfg : Config).
Variables (train_set valid_set : list (Example F)).
Variable t0 : Q.

Let all_batches (epochs : nat) :=
  flat_map (train_loader F cfg train_set) (seq 0 epochs).

Lemma train_only_app (a b : list (list (Input F) * list (list Z)))
    (s : State F) :
  train_only (a ++ b) s = train_only b (train_only a s).
Proof. apply fold_left_app. Qed.

Lemma train_only_step_count (batches : list (list (Input F) * list (list Z)))
    (s : State F) :
  step_count (optimizer (train_only batches s))
  = step_count (optimizer s) + length batches.
Proof.
  unfold train_only. revert s.
  induction batches as [|[d t] bs IH]; intros s; cbn [fold_left length].
  - lia.
  - rewrite IH. cbn [fst snd]. unfold trained.
    destruct (Adam_update F _ _ _ _ _). cbn. lia.
Qed.

(** A training loop that ends normally leaves the weights that training
    on the batches of all epochs, in order, produces. *)
Lemma train_loop_weights (s0 : State F) :
  match train_loop F ckpt_dir cfg train_set valid_set t0 s0 with
  | (s, inr _) =>
      weights s
      = weights (train_only (all_batches (Z.to_nat (rnn_num_epochs cfg))) s0)
  | (_, inl _) => True
  end.
Proof.
  unfold train_loop.
  pose proof (for_indexed
    (fun epoch_idx =>
       (for_ (enumerate (train_loader F cfg train_set epoch_idx))
          (train_body F ckpt_dir cfg train_set valid_set t0 epoch_idx) ;;
        ret Next)%py)
    (fun e s => weights s = weights (train_only (all_batches e) s0))
    (fun _ _ => True) (range (rnn_num_epochs cfg)) 0 s0) as Hloop.
  cbn beta in Hloop. cbn [Nat.add] in Hloop.
  match type of Hloop with ?P -> ?Q -> ?R =>
    assert (Hb : P); [|specialize (Hloop Hb eq_refl)] end.
  2:{ destruct (for_ _ _ s0) as [s [x|u]]; [exact I|].
      unfold range in Hloop. rewrite length_seq in Hloop. exact Hloop. }
  clear Hloop.
  intros e x s Hx Hs. apply nth_error_range in Hx. destruct Hx as [-> He].
  unfold bind.
  pose proof (for_indexed
    (train_body F ckpt_dir cfg train_set valid_set t0 e)
    (fun k s => weights s
                = weights (train_only
                    (all_batches e ++ firstn k (train_loader F cfg train_set e))
                    s0))
    (fun _ _ => True)
    (enumerate (train_loader F cfg train_set e)) 0 s) as Hin.
  cbn beta in Hin. cbn [Nat.add] in Hin.
  match type of Hin with ?P -> ?Q -> ?R =>
    assert (Hb : P); [|assert (Hq : Q); [|specialize (Hin Hb Hq)]] end.
  - intros k [k' [d t]] s1 Hk Hs1.
    apply nth_error_enumerate_item in Hk. cbn [fst snd] in Hk.
    destruct Hk as [-> Hk].
    pose proof (train_body_weights F ckpt_dir cfg train_set valid_set t0
                  e k d t s1) as Hw.
    pose proof (train_body_never_breaks F ckpt_dir cfg train_set valid_set t0
                  e (k, (d, t)) s1) as Hnb.
    pose proof (train_body_refused F ckpt_dir cfg train_set valid_set t0
                  e k d t s1) as Hfail.
    destruct (train_body F ckpt_dir cfg train_set valid_set t0 e (k, (d, t)) s1)
      as [s2 [x|[|]]]; cbn [fst snd] in *; [exact I| |congruence].
    rewrite train_step_unfold in Hw. cbn zeta in Hw.
    destruct (verdict _ _) as [x|] eqn:Hal.
    + (* the training step raised: the body cannot have gone on *)
      exfalso. apply verdict_refused in Hal.
      specialize (Hfail x Hal). discriminate.
    + cbn [fst] in Hw. rewrite Hw.
      rewrite (firstn_succ_nth _ _ _ Hk), app_assoc, train_only_app.
      cbn [train_only fold_left fst snd].
      apply weights_trained. exact Hs1.
  - cbn [firstn]. rewrite app_nil_r. exact Hs.
  - destruct (for_ _ _ s) as [s' [x|u]]; [exact I|].
    unfold enumerate in Hin.
    rewrite length_combine, length_seq, Nat.min_id, firstn_all in Hin.
    cbn [ret fst]. rewrite Hin. unfold all_batches.
    rewrite seq_S, flat_map_app. cbn [flat_map]. rewrite app_nil_r.
    reflexivity.
Qed.

End RunWeights.

Lemma train_only_lr (F : Framework)
    (batches : list (list (Input F) * list (list Z))) (s : State F) :
  lr (optimizer (train_only batches s)) = lr (optimizer s).
Proof.
  unfold train_only. revert s.
  induction batches as [|[d t] bs IH]; intros s; cbn [fold_left];
    [reflexivity|].
  rewrite IH. cbn [fst snd]. unfold trained.
  destruct (Adam_update F _ _ _ _ _). reflexivity.
Qed.

Lemma epochs_length (F : Framework) (cfg : Config)
    (train_set : list (Example F)) (epochs : list nat) :
  (0 < rnn_batch_size cfg)%Z ->
  length (flat_map (train_loader F cfg train_set) epochs)
  = num_batch F cfg train_set * length epochs.
Proof.
  intros Hbs. induction epochs as [|e es IH]; cbn [flat_map length]; [lia|].
  rewrite length_app, IH, train_loader_length by exact Hbs. lia.
Qed.

(** X2: a run that ends normally leaves exactly the parameters, gradient
    buffers and optimizer that training on the batches of all epochs, in
    loader order and starting from the initial model, produces: saving,
    validating and logging contribute nothing.  The optimizer has then made
    one step per batch, num_batch * num_epochs in all, and its learning
    rate is the configured one. *)
Theorem run_weights_are_training_only (F : Framework) (args : Args)
    (s : State F) :
  snd (main F args) = inr s ->
  let cfg := config_Config F in
  let train_set := Sequences F (zarr_path args) "train" in
  let batches :=
    flat_map (train_loader F cfg train_set) (range (rnn_num_epochs cfg)) in
  weights s = weights (train_only batches (initial_state F args))
  /\ step_count (optimizer s) = length batches
  /\ length batches
     = num_batch F cfg train_set * Z.to_nat (rnn_num_epochs cfg)
  /\ lr (optimizer s) = rnn_lr cfg.
Proof.
  intros Hrun cfg train_set batches.
  unfold main in Hrun. fold cfg train_set in Hrun.
  destruct (loaders_rejected F cfg _ _) eqn:Hrej; [discriminate|].
  assert (Hbs : (0 < rnn_batch_size cfg)%Z)
    by (apply loaders_accepted in Hrej; tauto).
  pose proof (train_loop_weights F (ckpt_dir args) cfg train_set
                (Sequences F (zarr_path args) "valid") (time_time F 0)
                (initial_state F args)) as Hw.
  destruct (train_loop _ _ _ _ _ _ _) as [s' [x|u]]; [discriminate|].
  cbn [snd] in Hrun. injection Hrun as ->.
  fold (range (rnn_num_epochs cfg)) in Hw. fold batches in Hw.
  assert (Ho : optimizer s
               = optimizer (train_only batches (initial_state F args))).
  { unfold weights in Hw. congruence. }
  split; [exact Hw|]. split; [|split].
  - rewrite Ho, train_only_step_count. reflexivity.
  - unfold batches, range. rewrite epochs_length, length_seq by exact Hbs.
    reflexivity.
  - rewrite Ho, train_only_lr. reflexivity.
Qed.

Lemma run_weights_are_training_only_witness :
  match snd (main ToyRun.F2 Toy.args) with
  | inr s => step_count (optimizer s) = 4 /\ state_dict (model s) = (-12)%Z
  | inl _ => False
  end.
Proof.
  destruct (snd (main ToyRun.F2 Toy.args)) as [x|s] eqn:Hrun.
  - vm_compute in Hrun. discriminate.
  - destruct (run_weights_are_training_only ToyRun.F2 Toy.args s Hrun)
      as (Hw & Hcount & _).
    split.
    + rewrite Hcount. reflexivity.
    + unfold weights in Hw. injection Hw as Hp _ _. rewrite Hp. reflexivity.
Defined.

(* ------------------------------------------------------------------ *)
(** ** Intervals of zero *)

Section ZeroIntervals.

Variable F : Framework.
Variable args : Args.

Let cfg := config_Config F.
Let train_set := Sequences F (zarr_path args) "train".
Let nb := num_batch F cfg train_set.

Lemma first_position (e i : nat) : nb * e + i = 0 -> i < nb -> e = 0 /\ i = 0.
Proof. intros H Hi. split; nia. Qed.

Lemma run_ckpt_zero :
  rnn_ckpt_step cfg = 0%Z ->
  match main F args with
  | (tr, inr _) => tr = created F args
  | (tr, inl x) =>
      (x <> ZeroDivisionError /\ tr = created F args)
      \/ (x = ZeroDivisionError
          /\ exists p, tr = created F args ++ [Trained 0 0 0 p])
  end.
Proof.
  intros Hc.
  pose proof (main_rule F args
    (fun e i s => nb * e + i = 0 /\ trace s = created F args)
    (fun x s => (x <> ZeroDivisionError /\ trace s = created F args)
                \/ (x = ZeroDivisionError
                    /\ exists p, trace s = created F args ++ [Trained 0 0 0 p])))
    as H.
  cbn beta in H. fold cfg train_set nb in H.
  match type of H with ?A -> ?B -> ?C -> _ =>
    assert (H1 : A); [|assert (H2 : B); [|assert (H3 : C);
      [|specialize (H H1 H2 H3)]]] end.
  - intros Hbs Hts Hvs e i d t s s' r _ Hi (Hpos & Htr0) Hout.
    destruct (first_position e i Hpos Hi) as [-> ->].
    inversion Hout as [s'' x0 Hna Htr Hloc | s'' r' seg Hal g p rows Htr Htail].
    + left. split; [apply (refused_not_arithmetic F _ _ _ _ _ Hna)|congruence].
    + assert (Hg : g = 0) by exact Hpos.
      inversion Htail; try contradiction.
      right. split; [reflexivity|]. exists p.
      rewrite Htr, Htr0, Hg.
      match goal with H : [] = seg |- _ => rewrite <- H end. reflexivity.
  - intros e s (Hpos & Htr). split; [lia|exact Htr].
  - split; [lia|reflexivity].
  - destruct (main F args) as [tr [x|s]].
    + destruct H as [(-> & -> & _)|(_ & s & -> & [[Hx Htr]|[-> Hp]])].
      * left. split; [discriminate|reflexivity].
      * left. split; [exact Hx|exact Htr].
      * right. split; [reflexivity|exact Hp].
    + destruct H as (-> & _ & Htr). exact Htr.
Qed.

Lemma run_summary_zero :
  rnn_ckpt_step cfg <> 0%Z -> rnn_summary_step cfg = 0%Z ->
  match main F args with
  | (tr, inr _) => tr = created F args
  | (tr, inl x) =>
      (x <> ZeroDivisionError /\ tr = created F args)
      \/ (x = ZeroDivisionError
          /\ exists p,
               tr = created F args
                    ++ [Trained 0 0 0 p;
                        Save p (Path.ckpt_path (ckpt_dir args) 0 0 0)])
  end.
Proof.
  intros Hc Hs.
  pose proof (main_rule F args
    (fun e i s => nb * e + i = 0 /\ trace s = created F args)
    (fun x s => (x <> ZeroDivisionError /\ trace s = created F args)
                \/ (x = ZeroDivisionError
                    /\ exists p,
                         trace s = created F args
                           ++ [Trained 0 0 0 p;
                               Save p (Path.ckpt_path (ckpt_dir args) 0 0 0)])))
    as H.
  cbn beta in H. fold cfg train_set nb in H.
  match type of H with ?A -> ?B -> ?C -> _ =>
    assert (H1 : A); [|assert (H2 : B); [|assert (H3 : C);
      [|specialize (H H1 H2 H3)]]] end.
  - intros Hbs Hts Hvs e i d t s s' r _ Hi (Hpos & Htr0) Hout.
    destruct (first_position e i Hpos Hi) as [-> ->].
    inversion Hout as [s'' x0 Hna Htr Hloc | s'' r' seg Hal g p rows Htr Htail].
    + left. split; [apply (refused_not_arithmetic F _ _ _ _ _ Hna)|congruence].
    + assert (Hg : g = 0) by exact Hpos.
      inversion Htail; try contradiction.
      right. split; [reflexivity|]. exists p.
      rewrite Htr, Htr0, Hg.
      match goal with H : save_part _ _ _ _ _ _ _ = seg |- _ => rewrite <- H end.
      unfold save_part, fires. rewrite Hg. cbn [Z.of_nat].
      rewrite Z.mod_0_l by exact Hc. reflexivity.
  - intros e s (Hpos & Htr). split; [lia|exact Htr].
  - split; [lia|reflexivity].
  - destruct (main F args) as [tr [x|s]].
    + destruct H as [(-> & -> & _)|(_ & s & -> & [[Hx Htr]|[-> Hp]])].
      * left. split; [discriminate|reflexivity].
      * left. split; [exact Hx|exact Htr].
      * right. split; [reflexivity|exact Hp].
    + destruct H as (-> & _ & Htr). exact Htr.
Qed.

End ZeroIntervals.

(** X3: with a checkpoint interval of zero no run gets past its first
    training step: as soon as one step has returned, the modulo on line 63
    raises ZeroDivisionError; the parameters have then been updated once,
    and nothing was saved, printed or logged. *)
Theorem zero_ckpt_interval_stops_first_step (F : Framework) (args : Args) :
  rnn_ckpt_step (config_Config F) = 0%Z ->
  saves (fst (main F args)) = []
  /\ scalars (fst (main F args)) = []
  /\ (iterations (fst (main F args)) <> [] ->
      snd (main F args) = inl ZeroDivisionError
      /\ exists p, fst (main F args) = created F args ++ [Trained 0 0 0 p]).
Proof.
  intros Hc. pose proof (run_ckpt_zero F args Hc) as H.
  destruct (created_quiet F args) as (Hi & Hs & _).
  assert (Hsc : scalars (created F args) = []).
  { unfold created. destruct (os_path_exists F _); reflexivity. }
  destruct (main F args) as [tr [x|s]]; cbn [fst snd].
  - destruct H as [[_ ->]|[-> [p ->]]].
    + rewrite Hs, Hsc, Hi. repeat split; congruence.
    + rewrite saves_app, scalars_app, Hs, Hsc. repeat split. eauto.
  - subst tr. rewrite Hs, Hsc, Hi. repeat split; congruence.
Qed.

Lemma zero_ckpt_interval_stops_first_step_witness :
  snd (main ToyEdge.F_ckpt0 Toy.args) = inl ZeroDivisionError
  /\ exists p, fst (main ToyEdge.F_ckpt0 Toy.args)
               = created ToyEdge.F_ckpt0 Toy.args ++ [Trained 0 0 0 p].
Proof.
  destruct (zero_ckpt_interval_stops_first_step ToyEdge.F_ckpt0 Toy.args)
    as (_ & _ & H).
  - reflexivity.
  - apply H. vm_compute. discriminate.
Defined.

(** X4: with a non-zero checkpoint interval and a summary interval of
    zero no run gets past its first iteration either: once the first
    training step has returned, the checkpoint of step 0 is written and the
    modulo on line 66 raises ZeroDivisionError; nothing is printed or
    logged. *)
Theorem zero_summary_interval_stops_first_step (F : Framework)
    (args : Args) :
  rnn_ckpt_step (config_Config F) <> 0%Z ->
  rnn_summary_step (config_Config F) = 0%Z ->
  scalars (fst (main F args)) = []
  /\ (iterations (fst (main F args)) <> [] ->
      snd (main F args) = inl ZeroDivisionError
      /\ exists p,
           fst (main F args)
           = created F args
             ++ [Trained 0 0 0 p;
                 Save p (Path.ckpt_path (ckpt_dir args) 0 0 0)]).
Proof.
  intros Hc Hs. pose proof (run_summary_zero F args Hc Hs) as H.
  destruct (created_quiet F args) as (Hi & _).
  assert (Hsc : scalars (created F args) = []).
  { unfold created. destruct (os_path_exists F _); reflexivity. }
  destruct (main F args) as [tr [x|s]]; cbn [fst snd].
  - destruct H as [[_ ->]|[-> [p ->]]].
    + rewrite Hsc, Hi. split; congruence.
    + rewrite scalars_app, Hsc. split; [reflexivity|]. eauto.
  - subst tr. rewrite Hsc, Hi. split; congruence.
Qed.

Lemma zero_summary_interval_stops_first_step_witness :
  snd (main ToyEdge.F_summary0 Toy.args) = inl ZeroDivisionError
  /\ exists p,
       fst (main ToyEdge.F_summary0 Toy.args)
       = created ToyEdge.F_summary0 Toy.args
         ++ [Trained 0 0 0 p; Save p "out/0_0-0.ckpt"%string].
Proof.
  destruct (zero_summary_interval_stops_first_step ToyEdge.F_summary0 Toy.args)
    as (_ & H).
  - discriminate.
  - reflexivity.
  - apply H. vm_compute. discriminate.
Defined.

(* ------------------------------------------------------------------ *)
(** ** Runs without iterations *)





(* ------------------------------------------------------------------ *)
(** ** Runs without exceptions *)

Section Completion.

Variable F : Framework.
Variables (ckpt_dir : string) (cfg : Config).
Variables (train_set valid_set : list (Example F)).
Variable t0 : Q.

Hypothesis batch_size_pos : (0 < rnn_batch_size cfg)%Z.
Hypothesis ckpt_step_nonzero : rnn_ckpt_step cfg <> 0%Z.
Hypothesis summary_step_nonzero : rnn_summary_step cfg <> 0%Z.
Hypothesis valid_set_nonempty : valid_set <> [].

Hypothesis train_accepted :
  forall e p d t,
    In (d, t) (train_loader F cfg train_set e) -> accepted true p d t.

Hypothesis valid_accepted :
  forall p g d t rest,
    valid_loader F cfg valid_set g = (d, t) :: rest -> accepted false p d t.



End Completion.

Module ToyTrain.


End ToyTrain.



(* ------------------------------------------------------------------ *)
(** ** Where a run writes *)

Section Confined.

Variable F : Framework.
Variable args : Args.

Let cfg := config_Config F.
Let dir := ckpt_dir args.

Lemma save_part_confined e i g p :
  Forall (confined dir) (save_part F dir cfg e i g p).
Proof.
  unfold save_part. destruct (fires _ _); repeat constructor.
  cbn. eauto.
Qed.

Lemma report_confined t0 e i g a l va vl :
  Forall (confined dir) (report F dir cfg t0 e i g a l va vl).
Proof. repeat constructor. Qed.

Lemma tail_confined valid_set t0 e i g p a l before after r seg :
  tail F dir cfg valid_set t0 e i g p a l before after r seg ->
  Forall (confined dir) seg.
Proof.
  pose proof (save_part_confined e i g p) as Hs.
  destruct 1; try exact Hs; try constructor.
  - apply Forall_app. split; [exact Hs|]. repeat constructor.
  - apply Forall_app. split; [exact Hs|]. constructor; [exact I|].
    apply report_confined.
Qed.

End Confined.

(** X7: a run creates the checkpoint directory at most once, before
    anything else and only when it does not exist; everything it writes
    afterwards stays in that directory: each file is saved under a
    checkpoint name in it and each group of scalars is logged to it. *)
Theorem run_writes_only_under_ckpt_dir (F : Framework) (args : Args) :
  exists rest,
    fst (main F args)
    = (if os_path_exists F (ckpt_dir args) then []
       else [Makedirs (ckpt_dir args)]) ++ rest
    /\ Forall (confined (ckpt_dir args)) rest.
Proof.
  apply (main_invariant F args
    (fun tr => exists rest, tr = created F args ++ rest
                            /\ Forall (confined (ckpt_dir args)) rest)).
  - intros Hbs Hvs e i d t s s' r (rest & Htr0 & Hall) Hout.
    inversion Hout as [s'' x0 Hna Htr Hloc | s'' r' seg Hal g p rows Htr Htail].
    + exists rest. split; [congruence|exact Hall].
    + exists (rest ++ Trained e i g p :: seg). split.
      * rewrite Htr, Htr0, app_assoc. reflexivity.
      * apply Forall_app. split; [exact Hall|]. constructor; [exact I|].
        eapply tail_confined. exact Htail.
  - exists []. split; [rewrite app_nil_r; reflexivity|constructor].
Qed.

(* ------------------------------------------------------------------ *)
(** ** How many checkpoints *)

Lemma fires_nat (c : Z) (g : nat) :
  (0 < c)%Z -> fires c g = (g mod Z.to_nat c =? 0).
Proof.
  intros Hc. unfold fires.
  rewrite <- (Z2Nat.id c) at 1 by lia.
  rewrite <- Nat2Z.inj_mod.
  destruct (g mod Z.to_nat c =? 0) eqn:H.
  - apply Nat.eqb_eq in H. rewrite H. reflexivity.
  - apply Nat.eqb_neq in H. apply Z.eqb_neq. lia.
Qed.

Lemma count_multiples (k n : nat) :
  0 < k ->
  length (filter (fun g => g mod k =? 0) (seq 0 n)) = (n + k - 1) / k.
Proof.
  intros Hk. induction n as [|n IH].
  - cbn [seq filter length]. symmetry. apply Nat.div_small. lia.
  - rewrite seq_S, filter_app, length_app, IH. cbn [filter].
    rewrite Nat.add_0_l.
    pose proof (Nat.div_mod_eq n k) as Hn.
    pose proof (Nat.mod_upper_bound n k ltac:(lia)) as Hr.
    destruct (n mod k =? 0) eqn:Hz.
    + apply Nat.eqb_eq in Hz. cbn [length].
      rewrite <- (Nat.div_unique (n + k - 1) k (n / k) (k - 1)) by lia.
      rewrite <- (Nat.div_unique (S n + k - 1) k (S (n / k)) 0) by lia.
      lia.
    + apply Nat.eqb_neq in Hz. cbn [length].
      rewrite <- (Nat.div_unique (n + k - 1) k (S (n / k)) (n mod k - 1)) by lia.
      rewrite <- (Nat.div_unique (S n + k - 1) k (S (n / k)) (n mod k)) by lia.
      lia.
Qed.

Lemma filter_due_length {F} (c : Z) (its : list (nat * nat * nat * Params F)) :
  length (filter (due c) its) = length (filter (fires c) (map step_of its)).
Proof.
  induction its as [|it its IH]; [reflexivity|].
  cbn [filter map]. unfold due at 1.
  destruct (fires c (step_of it)); cbn [length]; rewrite IH; reflexivity.
Qed.

(** X8: a run that ends normally with a positive checkpoint interval has
    written ceil(N / interval) checkpoint files, where N = num_batch *
    num_epochs is the number of training steps: one for step 0 and one for
    every further multiple of the interval below N; none is ever removed. *)
Theorem checkpoint_count (F : Framework) (args : Args) (s : State F) :
  let cfg := config_Config F in
  let steps := num_batch F cfg (Sequences F (zarr_path args) "train")
               * Z.to_nat (rnn_num_epochs cfg) in
  let interval := Z.to_nat (rnn_ckpt_step cfg) in
  (0 < rnn_ckpt_step cfg)%Z ->
  snd (main F args) = inr s ->
  length (saves (fst (main F args))) = (steps + interval - 1) / interval.
Proof.
  intros cfg steps interval Hc Hrun.
  rewrite run_saves by (fold cfg; lia).
  rewrite length_map, filter_due_length.
  destruct (run_well_numbered F args) as [[Hseq _] Hdone].
  rewrite Hseq, (Hdone s Hrun). fold cfg steps.
  rewrite (filter_ext (fires (rnn_ckpt_step cfg))
             (fun g => g mod interval =? 0)).
  - apply count_multiples. unfold interval. lia.
  - intros g. apply fires_nat. exact Hc.
Qed.

Lemma checkpoint_count_witness :
  match snd (main ToyRun.F2 Toy.args) with
  | inr _ => length (saves (fst (main ToyRun.F2 Toy.args))) = 2
  | inl _ => False
  end.
Proof.
  destruct (snd (main ToyRun.F2 Toy.args)) as [x|s] eqn:Hrun.
  - vm_compute in Hrun. discriminate.
  - apply (checkpoint_count ToyRun.F2 Toy.args s); [reflexivity|exact Hrun].
Defined.

(* ------------------------------------------------------------------ *)
(** ** What the loaders hand out *)

Module LoaderFacts.

Lemma concat_BatchSampler (bs : nat) (sampler batch : list nat) :
  concat (Data.BatchSampler bs sampler batch) = batch ++ sampler.
Proof.
  revert batch. induction sampler as [|idx rest IH]; intros batch;
    cbn [Data.BatchSampler].
  - destruct batch; reflexivity.
  - destruct (length (batch ++ [idx]) =? bs).
    + cbn [concat]. rewrite IH, <- app_assoc. reflexivity.
    + rewrite IH, <- app_assoc. reflexivity.
Qed.

Lemma BatchSampler_sizes (bs : nat) (sampler batch : list nat) :
  0 < bs -> length batch < bs ->
  Forall (fun b => 0 < length b <= bs) (Data.BatchSampler bs sampler batch).
Proof.
  intros Hbs. revert batch.
  induction sampler as [|idx rest IH]; intros batch Hlt;
    cbn [Data.BatchSampler].
  - destruct (0 <? length batch) eqn:Hb; constructor; [|constructor].
    apply Nat.ltb_lt in Hb. lia.
  - destruct (length (batch ++ [idx]) =? bs) eqn:Hfull.
    + apply Nat.eqb_eq in Hfull. constructor; [lia|]. apply IH. cbn. lia.
    + apply Nat.eqb_neq in Hfull. apply IH.
      rewrite length_app in *. cbn [length] in *. lia.
Qed.

Lemma insert_at_perm {A} (k : nat) (x : A) (l : list A) :
  Permutation (Data.insert_at k x l) (x :: l).
Proof.
  revert k. induction l as [|y l IH]; intros [|k]; cbn [Data.insert_at];
    try reflexivity.
  rewrite IH. apply perm_swap.
Qed.

Lemma randperm_perm (draw : nat -> nat) (n : nat) :
  Permutation (Data.randperm draw n) (seq 0 n).
Proof.
  induction n as [|n IH]; cbn [Data.randperm]; [reflexivity|].
  rewrite insert_at_perm, IH, seq_S. cbn [Nat.add].
  apply Permutation_cons_append.
Qed.

Lemma fetch_app {A} (dataset : list A) (a b : list nat) :
  Data.fetch dataset (a ++ b) = Data.fetch dataset a ++ Data.fetch dataset b.
Proof. apply flat_map_app. Qed.

Lemma fetch_concat {A} (dataset : list A) (batches : list (list nat)) :
  Data.fetch dataset (concat batches) = flat_map (Data.fetch dataset) batches.
Proof.
  induction batches as [|b bs IH]; [reflexivity|].
  cbn [concat flat_map]. rewrite fetch_app, IH. reflexivity.
Qed.

Lemma fetch_all_from {A} (pre dataset : list A) :
  Data.fetch (pre ++ dataset) (seq (length pre) (length dataset)) = dataset.
Proof.
  revert pre. induction dataset as [|x ds IH]; intros pre; [reflexivity|].
  cbn [length seq]. unfold Data.fetch. cbn [flat_map].
  rewrite nth_error_app2, Nat.sub_diag by lia. cbn [nth_error app].
  f_equal. specialize (IH (pre ++ [x])).
  rewrite <- app_assoc, length_app in IH. cbn [app length] in IH.
  rewrite Nat.add_1_r in IH. exact IH.
Qed.

Lemma fetch_all {A} (dataset : list A) :
  Data.fetch dataset (seq 0 (length dataset)) = dataset.
Proof. exact (fetch_all_from [] dataset). Qed.

Lemma uncollate {A B} (examples : list (A * B)) :
  combine (fst (Data.collate examples)) (snd (Data.collate examples))
  = examples.
Proof.
  unfold Data.collate. cbn [fst snd].
  induction examples as [|[a b] l IH]; cbn; [reflexivity|]. f_equal. exact IH.
Qed.

Lemma DataLoader_examples {A B} (dataset : list (A * B))
    (batches : list (list nat)) :
  flat_map (fun b => combine (fst b) (snd b)) (Data.DataLoader dataset batches)
  = Data.fetch dataset (concat batches).
Proof.
  unfold Data.DataLoader. rewrite fetch_concat.
  induction batches as [|b bs IH]; [reflexivity|].
  cbn [map flat_map]. rewrite uncollate, IH. reflexivity.
Qed.

End LoaderFacts.

(** X9: in every epoch the training loader hands out every example of
    the training split exactly once, in some order: the examples of its
    batches, taken together, are a permutation of the split.  With a
    positive batch size no batch is empty and none has more than
    batch_size examples. *)
Theorem epoch_visits_each_example_once (F : Framework) (cfg : Config)
    (train_set : list (Example F)) (epoch_idx : nat) :
  Permutation
    (flat_map (fun b => combine (fst b) (snd b))
       (train_loader F cfg train_set epoch_idx))
    train_set
  /\ ((0 < rnn_batch_size cfg)%Z ->
      Forall (fun b => 0 < length (fst b) <= Z.to_nat (rnn_batch_size cfg)
                       /\ length (snd b) = length (fst b))
        (train_loader F cfg train_set epoch_idx)).
Proof.
  unfold train_loader.
  set (idxs := Data.RandomSampler false _ _).
  assert (Hperm : Permutation idxs (seq 0 (length train_set)))
    by apply LoaderFacts.randperm_perm.
  split.
  - rewrite LoaderFacts.DataLoader_examples, LoaderFacts.concat_BatchSampler.
    cbn [app]. rewrite <- (LoaderFacts.fetch_all train_set) at 2.
    unfold Data.fetch. apply Permutation_flat_map. exact Hperm.
  - intros Hbs.
    pose proof (LoaderFacts.BatchSampler_sizes (Z.to_nat (rnn_batch_size cfg))
                  idxs [] ltac:(lia) ltac:(cbn; lia)) as Hsizes.
    assert (Hin : forall b, In b (Data.BatchSampler (Z.to_nat (rnn_batch_size cfg))
                                    idxs []) ->
                            Forall (fun i => i < length train_set) b).
    { intros b Hb. apply Forall_forall. intros i Hi.
      assert (Hidx : In i idxs).
      { rewrite <- (app_nil_l idxs),
          <- (LoaderFacts.concat_BatchSampler (Z.to_nat (rnn_batch_size cfg))).
        apply in_concat. eauto. }
      apply (Permutation_in _ Hperm) in Hidx. apply in_seq in Hidx. lia. }
    unfold Data.DataLoader. apply Forall_map.
    rewrite Forall_forall in *. intros b Hb.
    unfold Data.collate. cbn [fst snd]. rewrite !length_map.
    rewrite DataFacts.fetch_length by (apply Hin; exact Hb).
    split; [apply Hsizes; exact Hb|reflexivity].
Qed.

Lemma epoch_visits_each_example_once_witness :
  Forall (fun b => 0 < length (fst b) <= 2 /\ length (snd b) = length (fst b))
    (train_loader ToyRun.F2 (config_Config ToyRun.F2) Toy.split3 1).
Proof.
  apply (epoch_visits_each_example_once ToyRun.F2 (config_Config ToyRun.F2)
           Toy.split3 1).
  reflexivity.
Defined.

Lemma valid_loader_drawn_from (F : Framework) (cfg : Config)
    (valid_set : list (Example F)) (g : nat)
    (b : list (Input F) * list (list Z)) :
  In b (valid_loader F cfg valid_set g) -> drawn_from valid_set b.
Proof.
  unfold valid_loader, Data.DataLoader. intros Hin.
  apply in_map_iff in Hin. destruct Hin as (idxs & <- & _).
  intros ex Hex. rewrite LoaderFacts.uncollate in Hex.
  eapply ToyFacts.fetch_In. exact Hex.
Qed.

(** X10: every validation batch drawn during a run consists of examples
    of the validation split and has at most batch_size of them. *)
Theorem validation_batches_come_from_valid_split (F : Framework)
    (args : Args) :
  let valid_set := Sequences F (zarr_path args) "valid" in
  Forall (fun b => drawn_from valid_set b
                   /\ length (fst b)
                      <= Z.to_nat (rnn_batch_size (config_Config F)))
    (draws (fst (main F args))).
Proof.
  intros valid_set.
  apply (main_invariant F args
    (fun tr => Forall (fun b => drawn_from valid_set b
                                /\ length (fst b)
                                   <= Z.to_nat (rnn_batch_size (config_Config F)))
                 (draws tr))).
  - intros Hbs Hvs e i d t s s' r HP Hout.
    inversion Hout as [s'' x0 Hna Htr Hloc | s'' r' seg Hal g p rows Htr Htail].
    + rewrite Htr. exact HP.
    + rewrite Htr, draws_app. apply Forall_app. split; [exact HP|].
      cbn [draws flat_map app]. fold (@draws F seg).
      destruct (save_part_quiet F (ckpt_dir args) (config_Config F) e i g p)
        as (_ & Hd & _).
      assert (Hone : forall vd vt rest,
        valid_loader F (config_Config F) valid_set g = (vd, vt) :: rest ->
        drawn_from valid_set (vd, vt)
        /\ length (fst (vd, vt))
           <= Z.to_nat (rnn_batch_size (config_Config F))).
      { intros vd vt rest Hfirst. split.
        - apply (valid_loader_drawn_from F (config_Config F) valid_set g).
          rewrite Hfirst. left. reflexivity.
        - assert (Hne : valid_set <> [])
            by (intros Hnil; rewrite (valid_loader_nil F _ _ _ Hnil) in Hfirst;
                discriminate).
          destruct (valid_loader_first F (config_Config F) valid_set Hbs g Hne)
            as (d' & t' & rest' & Hfirst' & Hsize & _).
          rewrite Hfirst in Hfirst'. injection Hfirst' as <- <- _.
          cbn [fst]. rewrite Hsize. apply Nat.le_min_l. }
      inversion Htail; rewrite ?draws_app, ?Hd; cbn [draws flat_map app];
        try (constructor; [eapply Hone; eassumption|]); constructor.
  - destruct (created_quiet F args) as (_ & _ & Hd & _). rewrite Hd.
    constructor.
Qed.

(* ------------------------------------------------------------------ *)
(** ** How the two step functions compose *)

(** X11: a validation step leaves no mark on what follows: a training
    step run after it ends in the same state with the same result as
    without it, and so does another validation step. *)
Theorem valid_step_is_transparent (F : Framework)
    (d vd : list (Input F)) (t vt : list (list Z)) (s : State F) :
  train_step d t (fst (valid_step vd vt s)) = train_step d t s
  /\ valid_step d t (fst (valid_step vd vt s)) = valid_step d t s.
Proof.
  rewrite !train_step_unfold, !valid_step_unfold. cbn zeta.
  cbn [fst set_model with_training model state_dict].
  split.
  - destruct (verdict _ _); reflexivity.
  - reflexivity.
Qed.

(** X12: on a batch without any time step (no label, no logits row) the
    training step does not raise: it still updates the parameters once and
    returns nan as accuracy, the quotient of 0 by 0.0; the timing error
    derived from it is nan as well. *)
Theorem empty_batch_gives_nan (F : Framework) (data : list (Input F))
    (target : list (list Z)) (s : State F) (ns ss : Q) :
  Tensor.view target = [] ->
  Tensor.view (forward F true (state_dict (model s)) data) = [] ->
  train_step data target s
  = (trained data target s, inr (NaN, CrossEntropyLoss F [] []))
  /\ timing_error ns ss NaN = NaN.
Proof.
  intros Ht Hrows. split; [|reflexivity].
  rewrite train_step_unfold. cbn zeta. rewrite Ht, Hrows. reflexivity.
Qed.

Lemma empty_batch_gives_nan_witness :
  snd (@train_step ToyState.F1 ToyEmpty.data0 ToyEmpty.target0 ToyState.s1)
  = inr (NaN, Fin (inject_Z 0)).
Proof.
  destruct (empty_batch_gives_nan ToyState.F1 ToyEmpty.data0 ToyEmpty.target0
              ToyState.s1 8 (1 # 2) eq_refl eq_refl) as [H _].
  rewrite H. reflexivity.
Defined.

(** X13: for non-negative num_steps and step_stride and an accuracy in
    [0, 1], the timing error is at most num_steps * step_stride / 2, the
    value it takes at accuracy 0, and it is zero at accuracy 1. *)
Theorem timing_error_bounds (ns ss a : Q) :
  (0 <= ns)%Q -> (0 <= ss)%Q -> (0 <= a)%Q -> (a <= 1)%Q ->
  exists dt,
    timing_error ns ss (Fin a) = Fin dt
    /\ (dt <= ns * ss / 2)%Q
    /\ (a == 1 -> dt == 0)%Q
    /\ (a == 0 -> dt == ns * ss / 2)%Q.
Proof.
  intros Hns Hss Ha0 Ha1. eexists. split; [reflexivity|]. split; [|split].
  - apply Qmult_le_compat_r; [|discriminate].
    apply Qmult_le_compat_r; [|exact Hss].
    rewrite <- (Qmult_1_r ns) at 2.
    rewrite !(Qmult_comm ns). apply Qmult_le_compat_r; [lra|exact Hns].
  - intros H. rewrite H. field.
  - intros H. rewrite H. field.
Qed.

Lemma timing_error_bounds_witness :
  exists dt,
    timing_error 8 (1 # 2) (Fin (3 # 4)) = Fin dt
    /\ (dt <= 8 * (1 # 2) / 2)%Q.
Proof.
  destruct (timing_error_bounds 8 (1 # 2) (3 # 4)) as (dt & Hv & Hle & _);
    try discriminate.
  exists dt. split; assumption.
Defined.

(* ------------------------------------------------------------------ *)
(** ** Weight initialisation *)

Module InitFacts.

Import Init.
Local Open Scope init_scope.

Scheme tree_forest_ind := Induction for tree Sort Prop
  with forest_tree_ind := Induction for forest Sort Prop.

Section WithRandomSource.

Variable source : initialiser -> nat -> nat -> Q.

Lemma fill_zeros (t : tensor) : fill_ t 0 = zeros (length t).
Proof. unfold fill_, zeros. induction t; cbn; congruence. Qed.

Lemma random_length (kind : initialiser) (t : tensor) (k : nat) :
  exists t', random_ source kind t k = inr (t', S k) /\ length t' = length t.
Proof.
  eexists. split; [reflexivity|]. rewrite length_map, length_seq. reflexivity.
Qed.

Lemma init_parameter_spec (named : string * tensor) (k : nat) :
  exists after k',
    init_parameter source named k = inr (after, k')
    /\ parameter_initialised named after.
Proof.
  destruct named as [name param]. unfold init_parameter.
  unfold parameter_initialised, role_of. cbn [fst snd].
  destruct (contains "weight_ih" name).
  { unfold bind, ret. cbn. do 2 eexists. split; [reflexivity|]. cbn [fst snd].
    rewrite length_map, length_seq. repeat split; discriminate. }
  destruct (contains "weight_hh" name).
  { unfold bind, ret. cbn. do 2 eexists. split; [reflexivity|]. cbn [fst snd].
    rewrite length_map, length_seq. repeat split; discriminate. }
  destruct (contains "bias" name).
  { do 2 eexists. split; [reflexivity|]. cbn [fst snd].
    rewrite fill_zeros. unfold zeros. rewrite repeat_length.
    repeat split; discriminate. }
  do 2 eexists. split; [reflexivity|]. cbn [fst snd].
  repeat split; discriminate.
Qed.

Lemma for_each_init_parameter (ps : list (string * tensor)) (k : nat) :
  exists ps' k',
    for_each (init_parameter source) ps k = inr (ps', k')
    /\ Forall2 parameter_initialised ps ps'.
Proof.
  revert k. induction ps as [|p ps IH]; intros k.
  - exists [], k. split; [reflexivity|constructor].
  - destruct (init_parameter_spec p k) as (p' & k1 & Hp & Hrel).
    destruct (IH k1) as (ps' & k2 & Hps & Hall).
    exists (p' :: ps'), k2. split; [|constructor; assumption].
    cbn [for_each]. unfold bind at 1. rewrite Hp.
    unfold bind at 1. rewrite Hps. reflexivity.
Qed.

Lemma init_weights_spec (m : module) (k : nat) :
  if has_bias m
  then exists m' k',
         init_weights source m k = inr (m', k') /\ initialised m m'
  else init_weights source m k = inl AttributeError.
Proof.
  destruct m as [w [b|]|ps|ps]; cbn [has_bias init_weights].
  - do 2 eexists. split; [reflexivity|]. cbn [initialised].
    rewrite length_map, length_seq. split; [reflexivity|].
    exists b. rewrite fill_zeros. auto.
  - reflexivity.
  - destruct (for_each_init_parameter ps k) as (ps' & k' & Hps & Hall).
    exists (GRU ps'), k'. split; [|exact Hall].
    unfold bind. rewrite Hps. reflexivity.
  - exists (Other ps), k. split; reflexivity.
Qed.

Lemma apply_outcome (t : tree) : tree_outcome source t.
Proof.
  induction t using tree_forest_ind with (P0 := forest_outcome source);
    intros k.
  - (* Node *)
    cbn [modules apply]. rewrite forallb_app. cbn [forallb].
    rewrite andb_true_r. specialize (IHt k). unfold bind.
    destruct (forallb has_bias (forest_modules children)).
    + destruct IHt as (f' & k1 & Hf & Hall & Hsk). rewrite Hf.
      cbn [andb]. pose proof (init_weights_spec m k1) as Hm.
      destruct (has_bias m).
      * destruct Hm as (m' & k2 & Hm & Hrel). rewrite Hm.
        exists (Node m' f'), k2. split; [reflexivity|]. split.
        -- cbn [modules]. apply Forall2_app; [exact Hall|].
           constructor; [exact Hrel|constructor].
        -- cbn [skeleton]. rewrite Hsk. reflexivity.
      * rewrite Hm. reflexivity.
    + rewrite IHt. reflexivity.
  - (* NoChild *)
    exists NoChild, k. repeat split. constructor.
  - (* Child *)
    cbn [forest_modules apply_children]. rewrite forallb_app.
    specialize (IHt k). unfold bind.
    destruct (forallb has_bias (modules t)).
    + destruct IHt as (t' & k1 & Ht & Hall & Hsk). rewrite Ht.
      cbn [andb]. specialize (IHt0 k1).
      destruct (forallb has_bias (forest_modules rest)).
      * destruct IHt0 as (f' & k2 & Hf & Hall' & Hsk'). rewrite Hf.
        exists (Child t' f'), k2. split; [reflexivity|]. split.
        -- cbn [forest_modules]. apply Forall2_app; assumption.
        -- cbn [forest_skeleton]. rewrite Hsk, Hsk'. reflexivity.
      * rewrite IHt0. reflexivity.
    + rewrite IHt. reflexivity.
Qed.

End WithRandomSource.

(** *** Names of parameters *)

Lemma contains_prefix (sub rest : string) :
  contains sub (sub ++ rest) = true.
Proof.
  assert (H : String.prefix sub (sub ++ rest) = true).
  { induction sub as [|c sub IH]; cbn; [destruct rest; reflexivity|].
    destruct (ascii_dec c c); [exact IH|congruence]. }
  destruct (sub ++ rest)%string; cbn [contains]; rewrite H; reflexivity.
Qed.

Lemma contains_lacks (c : ascii) (sub s : string) :
  lacks c s = true -> contains (String c sub) s = false.
Proof.
  induction s as [|a s IH]; intros H; [reflexivity|].
  cbn [lacks] in H. apply andb_prop in H. destruct H as [Ha Hs].
  cbn [contains String.prefix].
  destruct (ascii_dec c a) as [->|_].
  - rewrite Ascii.eqb_refl in Ha. discriminate.
  - apply IH. exact Hs.
Qed.

End InitFacts.

(** X14: applying init_weights to a model raises AttributeError exactly
    when the model contains a linear layer without bias (nn.init.constant_
    is then called on None); on every other model it returns. *)
Theorem init_weights_fails_exactly_without_bias
    (source : Init.initialiser -> nat -> nat -> Q) (t : Init.tree) (k : nat) :
  (Init.apply (Init.init_weights source) t k = inl Init.AttributeError
   <-> forallb Init.has_bias (Init.modules t) = false)
  /\ ((exists t' k', Init.apply (Init.init_weights source) t k = inr (t', k'))
      <-> forallb Init.has_bias (Init.modules t) = true).
Proof.
  pose proof (InitFacts.apply_outcome source t k) as H.
  destruct (forallb Init.has_bias (Init.modules t)).
  - destruct H as (t' & k' & Hrun & _). split; split; intros H;
      try discriminate; try reflexivity.
    + rewrite Hrun in H. discriminate.
    + eauto.
  - split; split; intros H'; try discriminate; try reflexivity; try exact H.
    destruct H' as (t' & k' & Hrun). rewrite H in Hrun. discriminate.
Qed.

Lemma init_weights_fails_exactly_without_bias_witness :
  Init.apply (Init.init_weights Init.example_source)
    Init.example_model_no_bias 0
  = inl Init.AttributeError.
Proof.
  apply (init_weights_fails_exactly_without_bias Init.example_source
           Init.example_model_no_bias 0).
  reflexivity.
Defined.

(** X15: on a model in which every linear layer has a bias, applying
    init_weights returns a model of the same structure in which, module by
    module: a linear layer has a weight of the same size and an all-zero
    bias of the same size; a recurrent layer has the same parameter names
    and sizes, all-zero parameters where the name selects the bias rule and
    unchanged parameters where it selects no rule; every other module is
    unchanged. *)
Theorem init_weights_zeroes_biases_keeps_structure
    (source : Init.initialiser -> nat -> nat -> Q) (t : Init.tree) (k : nat) :
  forallb Init.has_bias (Init.modules t) = true ->
  exists t' k',
    Init.apply (Init.init_weights source) t k = inr (t', k')
    /\ Forall2 Init.initialised (Init.modules t) (Init.modules t')
    /\ Init.skeleton t' = Init.skeleton t.
Proof.
  intros Hb. pose proof (InitFacts.apply_outcome source t k) as H.
  rewrite Hb in H. exact H.
Qed.

Lemma init_weights_zeroes_biases_keeps_structure_witness :
  exists t' k',
    Init.apply (Init.init_weights Init.example_source) Init.example_model 0
    = inr (t', k')
    /\ Forall2 Init.initialised (Init.modules Init.example_model)
         (Init.modules t')
    /\ Init.skeleton t' = Init.skeleton Init.example_model.
Proof.
  apply (init_weights_zeroes_biases_keeps_structure Init.example_source
           Init.example_model 0).
  reflexivity.
Defined.

(** X16: the parameters of a recurrent layer as PyTorch names them
    (weight_ih_l..., weight_hh_l..., bias_ih_l..., bias_hh_l..., followed
    by a layer number and possibly _reverse, so by nothing that contains a
    letter w) get the rule meant for them: the input-to-hidden weights the
    Xavier initialiser, the hidden-to-hidden weights the orthogonal one,
    and both biases are filled with zeros without drawing random values. *)
Theorem init_parameter_standard_names
    (source : Init.initialiser -> nat -> nat -> Q) (suffix : string)
    (p : Init.tensor) (k : nat) :
  Init.lacks "w" suffix = true ->
  Init.init_parameter source ("weight_ih_l" ++ suffix, p)%string k
  = inr (("weight_ih_l" ++ suffix, map (source Init.Xavier k) (seq 0 (length p)))%string,
         S k)
  /\ Init.init_parameter source ("weight_hh_l" ++ suffix, p)%string k
     = inr (("weight_hh_l" ++ suffix,
             map (source Init.Orthogonal k) (seq 0 (length p)))%string, S k)
  /\ Init.init_parameter source ("bias_ih_l" ++ suffix, p)%string k
     = inr (("bias_ih_l" ++ suffix, Init.zeros (length p))%string, k)
  /\ Init.init_parameter source ("bias_hh_l" ++ suffix, p)%string k
     = inr (("bias_hh_l" ++ suffix, Init.zeros (length p))%string, k).
Proof.
  intros Hw.
  pose proof (InitFacts.contains_lacks "w" "eight_ih" suffix Hw) as Hih.
  pose proof (InitFacts.contains_lacks "w" "eight_hh" suffix Hw) as Hhh.
  change (String "w" "eight_ih") with "weight_ih"%string in Hih.
  change (String "w" "eight_hh") with "weight_hh"%string in Hhh.
  assert (H1 : Init.contains "weight_ih" ("weight_ih_l" ++ suffix) = true).
  { change ("weight_ih_l" ++ suffix)%string
      with ("weight_ih" ++ ("_l" ++ suffix))%string.
    apply InitFacts.contains_prefix. }
  assert (H2 : Init.contains "weight_ih" ("weight_hh_l" ++ suffix) = false).
  { cbn. exact Hih. }
  assert (H3 : Init.contains "weight_hh" ("weight_hh_l" ++ suffix) = true).
  { change ("weight_hh_l" ++ suffix)%string
      with ("weight_hh" ++ ("_l" ++ suffix))%string.
    apply InitFacts.contains_prefix. }
  assert (Hb1 : Init.contains "weight_ih" ("bias_ih_l" ++ suffix) = false)
    by (cbn; exact Hih).
  assert (Hb2 : Init.contains "weight_hh" ("bias_ih_l" ++ suffix) = false)
    by (cbn; exact Hhh).
  assert (Hb3 : Init.contains "weight_ih" ("bias_hh_l" ++ suffix) = false)
    by (cbn; exact Hih).
  assert (Hb4 : Init.contains "weight_hh" ("bias_hh_l" ++ suffix) = false)
    by (cbn; exact Hhh).
  assert (Hb5 : Init.contains "bias" ("bias_ih_l" ++ suffix) = true).
  { change ("bias_ih_l" ++ suffix)%string
      with ("bias" ++ ("_ih_l" ++ suffix))%string.
    apply InitFacts.contains_prefix. }
  assert (Hb6 : Init.contains "bias" ("bias_hh_l" ++ suffix) = true).
  { change ("bias_hh_l" ++ suffix)%string
      with ("bias" ++ ("_hh_l" ++ suffix))%string.
    apply InitFacts.contains_prefix. }
  unfold Init.init_parameter.
  rewrite H1, H2, H3, Hb1, Hb2, Hb3, Hb4, Hb5, Hb6, InitFacts.fill_zeros.
  repeat split.
Qed.

Lemma init_parameter_standard_names_witness :
  Init.init_parameter Init.example_source
    ("bias_hh_l0_reverse"%string, [6; 7]%Q) 3
  = inr (("bias_hh_l0_reverse"%string, [0; 0]%Q), 3).
Proof.
  apply (init_parameter_standard_names Init.example_source "0_reverse"
           [6; 7]%Q 3).
  reflexivity.
Defined.
